(** * Trip Daddy: the paywalled itinerary planner

    A shallow embedding of the planning workflow of [src/App.tsx] (the
    React component holding the wizard state, with its service layer), of
    the routes of [src/server/index.ts] that store, mask and unlock
    itineraries, and of the question route of the generation service,
    together with the properties the specification states about them and
    further properties read off the code.

    Conventions.
    - React state is one record, [AppState]; every handler is a function of
      the state it runs in.  A handler that awaits a service is split at the
      [await]: the part before it returns the request it issues, the part
      after it takes the service's outcome and the state current at that
      moment (the functional updaters [setX(prev => ...)] read the latest
      state, not the one captured by the closure).
    - JavaScript objects used as dictionaries are [gmap]s, [Set<string>] is
      [gset string], arrays are lists.
    - Pixel coordinates and day numbers are integers ([Z]); array indices
      are naturals. *)

From Stdlib Require Import ZArith Lia.
From stdpp Require Import gmap strings list fin_maps pretty.

Local Open Scope string_scope.
Local Open Scope Z_scope.

(** ** Data model *)

(** [enum Step] of App.tsx. *)
Inductive Step : Set :=
| START | PREFERENCES | SPECIFICS | QUESTIONS | LOADING | ITINERARY
| VERIFYING_PAYMENT.

#[global] Instance Step_eq_dec : EqDecision Step.
Proof. solve_decision. Defined.

(** The four cards of the "Who are you traveling with?" section. *)
Inductive TripType : Set := Solo | Couple | Friends | Family.

#[global] Instance TripType_eq_dec : EqDecision TripType.
Proof. solve_decision. Defined.

Inductive Gender : Set := Male | Female.

(** ['morning' | 'afternoon' | 'evening'] *)
Inductive Period : Set := morning | afternoon | evening.

#[global] Instance Period_eq_dec : EqDecision Period.
Proof. solve_decision. Defined.

Definition period_name (p : Period) : string :=
  match p with
  | morning => "morning"
  | afternoon => "afternoon"
  | evening => "evening"
  end.

(** ['left' | 'right'] of the swipe card. *)
Inductive Direction : Set := left | right.

(** [prefs.demographics]: every field is optional; [age] holds the text of a
    numeric input, [kidsAgeRange] one of the four range labels. *)
Record Demographics : Set := {
  gender : option Gender;
  age : option string;
  kidsAgeRange : option string
}.

Record FixedPlan : Set := {
  fp_id : string;
  fp_date : string;
  fp_description : string
}.

Record UserPreferences : Type := {
  destination : string;
  startDate : string;
  endDate : string;
  hotelLocation : string;
  tripType : TripType;
  budget : string;
  vibe : string;
  pace : string;
  interests : list string;
  demographics : Demographics;
  fixedPlans : list FixedPlan;
  mustVisit : string;
  followUpAnswers : gmap string bool
}.

Record SmartQuestion : Set := {
  q_id : string;
  q_emoji : string;
  q_title : string;
  q_description : string
}.

(** Modelled from the spec: the [Activity] type of [./types], which is not
    part of the sources at hand; the fields are the ones section 3 of the
    specification lists (the rating, a number between 0 and 5, is kept in
    tenths). *)
Record Activity : Set := {
  a_name : string;
  a_description : string;
  a_emoji : string;
  a_category : string;
  a_mapsQuery : string;
  a_website : option string;
  a_priceLevel : string;
  a_admissionFee : string;
  a_rating : Z;
  a_openingHours : string;
  a_isLocalRecommendation : bool
}.

Record HighlightEvent : Set := {
  h_name : string;
  h_description : string;
  h_mapsQuery : string
}.

(** Modelled from the spec: the [DayPlan] type of [./types]. *)
Record DayPlan : Set := {
  dayNumber : Z;
  date : string;
  title : string;
  areaFocus : string;
  dayVibe : string;
  vibeIcons : list string;
  highlightEvent : option HighlightEvent;
  dayMorning : list Activity;
  dayAfternoon : list Activity;
  dayEvening : list Activity
}.

(** Modelled from the spec: the [Itinerary] type of [./types]. *)
Record Itinerary : Set := {
  planDestination : string;
  days : list DayPlan
}.

(** [d[period]]; the three lists are arrays by the type of [DayPlan], so
    the fallback of [d[period] || []] is never taken. *)
Definition period_of (p : Period) (d : DayPlan) : list Activity :=
  match p with
  | morning => dayMorning d
  | afternoon => dayAfternoon d
  | evening => dayEvening d
  end.

(** [{ ...d, [period]: l }] *)
Definition set_period (p : Period) (l : list Activity) (d : DayPlan) : DayPlan :=
  match p with
  | morning =>
      {| dayNumber := dayNumber d; date := date d; title := title d;
         areaFocus := areaFocus d; dayVibe := dayVibe d;
         vibeIcons := vibeIcons d; highlightEvent := highlightEvent d;
         dayMorning := l; dayAfternoon := dayAfternoon d;
         dayEvening := dayEvening d |}
  | afternoon =>
      {| dayNumber := dayNumber d; date := date d; title := title d;
         areaFocus := areaFocus d; dayVibe := dayVibe d;
         vibeIcons := vibeIcons d; highlightEvent := highlightEvent d;
         dayMorning := dayMorning d; dayAfternoon := l;
         dayEvening := dayEvening d |}
  | evening =>
      {| dayNumber := dayNumber d; date := date d; title := title d;
         areaFocus := areaFocus d; dayVibe := dayVibe d;
         vibeIcons := vibeIcons d; highlightEvent := highlightEvent d;
         dayMorning := dayMorning d; dayAfternoon := dayAfternoon d;
         dayEvening := l |}
  end.

(** [{ ...plan, days: ds }] *)
Definition set_days (ds : list DayPlan) (p : Itinerary) : Itinerary :=
  {| planDestination := planDestination p; days := ds |}.

(** ** The server: [src/server/index.ts] *)

Module Server.

(** The [plan] field of the Mongoose schema has type [Mixed].  The model
    covers the two kinds of value the routes are written for: a plan of the
    [Itinerary] type, whose [days] is an array ([PlanDays]), and null
    ([PlanNull]), which the guards [!plan] and [plan?.days?.length] provide
    for.  A stored object whose [days] is not an array is outside the
    model. *)
Inductive PlanJson : Set :=
| PlanDays (p : Itinerary)
| PlanNull.

(** A document of the [Itinerary] collection. *)
Record Doc : Type := {
  doc_id : string;
  doc_email : option string;
  doc_unlocked : bool;
  doc_plan : PlanJson;
  doc_images : gmap Z string
}.

(** [maskPlan]: null is returned as it is, a plan with its first two
    days. *)
Definition maskPlan (plan : PlanJson) : PlanJson :=
  match plan with
  | PlanNull => PlanNull
  | PlanDays p => PlanDays (set_days (take 2 (days p)) p)
  end.

(** [plan?.days?.length || 0]: the number of days, 0 for null. *)
Definition plan_days_length (plan : PlanJson) : Z :=
  match plan with
  | PlanDays p => Z.of_nat (length (days p))
  | PlanNull => 0
  end.

(** The body of the successful answer of [GET /api/itinerary/:id]. *)
Record Resource : Type := {
  r_id : string;
  r_unlocked : bool;
  r_plan : PlanJson;
  r_totalDays : Z;
  r_images : gmap Z string
}.

(** The collection, keyed by the unique [id] field. *)
Abbreviation Db := (gmap string Doc).

(** [GET /api/itinerary/:id]: [None] is the 404 answer. *)
Definition get_itinerary (db : Db) (id : string) : option Resource :=
  match db !! id with
  | None => None
  | Some itinerary =>
      let returnedPlan :=
        if negb (doc_unlocked itinerary) then
          match doc_plan itinerary with
          | PlanDays _ => maskPlan (doc_plan itinerary)
          | PlanNull => doc_plan itinerary
          end
        else doc_plan itinerary in
      Some {| r_id := doc_id itinerary;
              r_unlocked := doc_unlocked itinerary;
              r_plan := returnedPlan;
              r_totalDays := plan_days_length (doc_plan itinerary);
              r_images := doc_images itinerary |}
  end.

(** The answer of [POST /api/generate-trip] for a freshly generated plan:
    the plan is stored in full and answered masked. *)
Definition generate_trip_response (id : string) (fullPlan : Itinerary)
  : Resource :=
  {| r_id := id; r_unlocked := false;
     r_plan := maskPlan (PlanDays fullPlan);
     r_totalDays := Z.of_nat (length (days fullPlan));
     r_images := ∅ |}.

(** What [stripe.checkout.sessions.retrieve] returns, as far as the route
    reads it. *)
Record CheckoutSession : Set := {
  payment_status : string;
  client_reference_id : option string
}.

(** The answer of [POST /api/verify-payment]. *)
Inductive VerifyResponse : Set :=
| VerifyOk                (* 200 { success: true } *)
| VerifyInvalid           (* 400 { error: 'Payment invalid or not completed' } *)
| VerifyFailed.           (* 500 { error: 'Verification failed' } *)

Definition set_unlocked (b : bool) (d : Doc) : Doc :=
  {| doc_id := doc_id d; doc_email := doc_email d; doc_unlocked := b;
     doc_plan := doc_plan d; doc_images := doc_images d |}.

(** [Itinerary.findOneAndUpdate({ id }, { unlocked: true })] *)
Definition mark_unlocked (id : string) (db : Db) : Db :=
  alter (set_unlocked true) id db.

(** [POST /api/verify-payment].  [retrieve] is the payment provider: [None]
    is a rejected promise (unknown session, provider unreachable), which
    the route's [catch] turns into the 500 answer.  The collection is a
    finite map whose operations do not fail.  The confirmation mail is
    sent after the update and cannot fail the route ([sendEmail] catches
    its own errors); it is left out. *)
Definition verify_payment (retrieve : string -> option CheckoutSession)
    (db : Db) (sessionId itineraryId : string) : Db * VerifyResponse :=
  match retrieve sessionId with
  | None => (db, VerifyFailed)
  | Some session =>
      if bool_decide (payment_status session = "paid")
         && bool_decide (client_reference_id session = Some itineraryId)
      then (mark_unlocked itineraryId db, VerifyOk)
      else (db, VerifyInvalid)
  end.

(** The document [POST /api/generate-trip] stores for a generated plan. *)
Definition new_doc (id : string) (fullPlan : Itinerary) : Doc :=
  {| doc_id := id; doc_email := None; doc_unlocked := false;
     doc_plan := PlanDays fullPlan; doc_images := ∅ |}.

(** [POST /api/generate-trip].  [fullPlan] is what the generation service
    returned, [None] when it produced no plan; [id] is the fresh UUID.  The
    schema declares [id] unique, so saving under an id already taken is
    rejected.  [None] is the 500 answer. *)
Definition generate_trip (fullPlan : option Itinerary) (id : string) (db : Db)
  : Db * option Resource :=
  match fullPlan with
  | None => (db, None)
  | Some plan =>
      match db !! id with
      | Some _ => (db, None)
      | None => (<[id := new_doc id plan]> db,
                 Some (generate_trip_response id plan))
      end
  end.

(** [{ $set: { [`images.${dayNumber}`]: image } }] *)
Definition set_image (dayNumber : Z) (image : string) (d : Doc) : Doc :=
  {| doc_id := doc_id d; doc_email := doc_email d;
     doc_unlocked := doc_unlocked d; doc_plan := doc_plan d;
     doc_images := <[dayNumber := image]> (doc_images d) |}.

(** [POST /api/save-image]; the route answers success whether or not a
    document matches. *)
Definition save_image (itineraryId : string) (dayNumber : Z) (image : string)
    (db : Db) : Db :=
  alter (set_image dayNumber image) itineraryId db.

(** The two mails of the server, without their text. *)
Inductive MailKind : Set := PreviewMail | UnlockedMail.

Record Mail : Set := {
  mail_to : string;
  mail_kind : MailKind;
  mail_link : string
}.

(** [`${req.headers.origin || 'http://localhost:3000'}/?id=${itineraryId}`] *)
Definition shareUrl (origin : option string) (itineraryId : string) : string :=
  (match origin with
   | Some o => if String.eqb o "" then "http://localhost:3000" else o
   | None => "http://localhost:3000"
   end) +:+ "/?id=" +:+ itineraryId.

Definition set_email (email : string) (d : Doc) : Doc :=
  {| doc_id := doc_id d; doc_email := Some email;
     doc_unlocked := doc_unlocked d; doc_plan := doc_plan d;
     doc_images := doc_images d |}.

(** The answer of [POST /api/save-email]. *)
Inductive EmailResponse : Set :=
| EmailSaved              (* 200 { success: true } *)
| EmailNotFound.          (* 404 { error: 'Itinerary not found' } *)

(** [POST /api/save-email]: the address is stored on the itinerary and the
    preview mail is sent to it. *)
Definition save_email (origin : option string) (email itineraryId : string)
    (db : Db) : Db * EmailResponse * option Mail :=
  match db !! itineraryId with
  | None => (db, EmailNotFound, None)
  | Some _ =>
      (alter (set_email email) itineraryId db, EmailSaved,
       Some {| mail_to := email; mail_kind := PreviewMail;
               mail_link := shareUrl origin itineraryId |})
  end.

(** The mail [POST /api/verify-payment] sends: after the update, to the
    address of the unlocked itinerary, if it has one. *)
Definition verify_payment_mail (origin : option string)
    (retrieve : string -> option CheckoutSession) (db : Db)
    (sessionId itineraryId : string) : option Mail :=
  match retrieve sessionId with
  | None => None
  | Some session =>
      if bool_decide (payment_status session = "paid")
         && bool_decide (client_reference_id session = Some itineraryId)
      then
        match mark_unlocked itineraryId db !! itineraryId with
        | Some itinerary =>
            match doc_email itinerary with
            | Some e =>
                if String.eqb e "" then None
                else Some {| mail_to := e; mail_kind := UnlockedMail;
                             mail_link := shareUrl origin itineraryId |}
            | None => None
            end
        | None => None
        end
      else None
  end.

(** What [POST /api/create-checkout-session] asks the payment provider
    for. *)
Record CheckoutParams : Set := {
  cp_unit_amount : Z;
  cp_currency : string;
  cp_success_url : string;
  cp_cancel_url : string;
  cp_client_reference_id : string;
  cp_customer_email : option string
}.

(** [POST /api/create-checkout-session]; [None] is the 404 answer. *)
Definition create_checkout_session (origin : option string)
    (itineraryId : string) (db : Db) : option CheckoutParams :=
  match db !! itineraryId with
  | None => None
  | Some itinerary =>
      Some {| cp_unit_amount := 500; cp_currency := "usd";
              cp_success_url :=
                shareUrl origin itineraryId
                  +:+ "&success=true&session_id={CHECKOUT_SESSION_ID}";
              cp_cancel_url :=
                shareUrl origin itineraryId +:+ "&canceled=true";
              cp_client_reference_id := itineraryId;
              cp_customer_email :=
                match doc_email itinerary with
                | Some e => if String.eqb e "" then None else Some e
                | None => None
                end |}
  end.

End Server.

(** ** The generation service of the server: [services/aiService] *)

Module AiService.
Import Stdlib.Strings.Ascii.

(** [String.prototype.split] for a separator of one character. *)
Fixpoint split_on (sep : Ascii.ascii) (s : string) : list string :=
  match s with
  | EmptyString => [EmptyString]
  | String c rest =>
      if Ascii.eqb c sep then EmptyString :: split_on sep rest
      else match split_on sep rest with
           | h :: t => String c h :: t
           | [] => [String c EmptyString]
           end
  end.

(** An element of a destructured array inside a template literal: a
    missing one prints as [undefined]. *)
Definition part (parts : list string) (i : nat) : string :=
  default "undefined" (parts !! i).

(** [formatDateForPrompt] *)
Definition formatDateForPrompt (isoDate : string) : string :=
  if String.eqb isoDate "" then ""
  else
    let parts := split_on "-"%char isoDate in
    part parts 2 +:+ "/" +:+ part parts 1 +:+ "/" +:+ part parts 0.

(** [1000 * 60 * 60 * 24] *)
Definition msPerDay : Z := 1000 * 60 * 60 * 24.

(** [Math.ceil(a / b)] for a positive [b], on integers: the quotient of
    two millisecond counts less than 2^26 days apart is rounded by less
    than the distance of a non-integral quotient to the integer below
    it. *)
Definition ceil_div (a b : Z) : Z := - ((- a) / b).

(** [durationDays] of [checkEventsAndGetQuestions].  The dates are the
    [getTime()] of the parsed trip dates in milliseconds, [None] for an
    invalid date, which makes the result [NaN] ([None]). *)
Definition durationDays (start finish : option Z) : option Z :=
  match start, finish with
  | Some a, Some b => Some (Z.max 1 (ceil_div (b - a) msPerDay + 1))
  | _, _ => None
  end.

(** [durationDays <= 5 ? 5 : 10]; a comparison with [NaN] is false. *)
Definition targetNumQuestions (duration : option Z) : nat :=
  match duration with
  | Some d => if bool_decide (d ≤ 5) then 5%nat else 10%nat
  | None => 10%nat
  end.

(** [checkEventsAndGetQuestions]: [answer] is the array parsed from the
    model's text, [None] when the call failed or the text is no array. *)
Definition checkEventsAndGetQuestions (start finish : option Z)
    (answer : option (list SmartQuestion)) : list SmartQuestion :=
  match answer with
  | Some res => take (targetNumQuestions (durationDays start finish)) res
  | None => []
  end.

End AiService.

(** ** The client: the [App] component of [src/App.tsx] *)

Module App.

(** The value [useState<UserPreferences>] starts from. *)
Definition initialPrefs : UserPreferences :=
  {| destination := ""; startDate := ""; endDate := ""; hotelLocation := "";
     tripType := Couple; budget := "Medium"; vibe := "Both";
     pace := "Balanced"; interests := [];
     demographics := {| gender := None; age := None; kidsAgeRange := None |};
     fixedPlans := []; mustVisit := ""; followUpAnswers := ∅ |}.

(** [{ ...prev, followUpAnswers: m }] *)
Definition set_followUpAnswers (m : gmap string bool) (p : UserPreferences)
  : UserPreferences :=
  {| destination := destination p; startDate := startDate p;
     endDate := endDate p; hotelLocation := hotelLocation p;
     tripType := tripType p; budget := budget p; vibe := vibe p;
     pace := pace p; interests := interests p;
     demographics := demographics p; fixedPlans := fixedPlans p;
     mustVisit := mustVisit p; followUpAnswers := m |}.

(** [regenTarget] *)
Record RegenTarget : Set := {
  rt_dayNum : Z;
  rt_period : Period;
  rt_idx : nat;
  rt_activity : Activity;
  rt_dayContext : DayPlan
}.

(** The state hooks of [App] that the workflow reads or writes.  The hooks
    that only drive widgets (date pickers, the e-mail dialog, the progress
    bar, the payment spinner) are left out. *)
Record AppState : Type := {
  step : Step;
  prefs : UserPreferences;
  smartQuestions : list SmartQuestion;
  itinerary : option Itinerary;
  itineraryId : option string;
  isUnlocked : bool;
  totalDays : Z;
  dayImages : gmap Z string;
  regeneratingIds : gset string;
  regenModalOpen : bool;
  regenTarget : option RegenTarget;
  currentQuestionIndex : nat;
  dragStart : option (Z * Z);
  dragDelta : Z * Z;
  isAnimatingOut : option Direction
}.

Definition initialState : AppState :=
  {| step := START; prefs := initialPrefs; smartQuestions := [];
     itinerary := None; itineraryId := None; isUnlocked := false;
     totalDays := 0; dayImages := ∅; regeneratingIds := ∅;
     regenModalOpen := false; regenTarget := None;
     currentQuestionIndex := 0; dragStart := None; dragDelta := (0, 0);
     isAnimatingOut := None |}.

(** The state setters. *)
Definition setStep (v : Step) (s : AppState) : AppState :=
  Build_AppState v (prefs s) (smartQuestions s) (itinerary s) (itineraryId s)
    (isUnlocked s) (totalDays s) (dayImages s) (regeneratingIds s)
    (regenModalOpen s) (regenTarget s) (currentQuestionIndex s) (dragStart s)
    (dragDelta s) (isAnimatingOut s).
Definition setPrefs (v : UserPreferences) (s : AppState) : AppState :=
  Build_AppState (step s) v (smartQuestions s) (itinerary s) (itineraryId s)
    (isUnlocked s) (totalDays s) (dayImages s) (regeneratingIds s)
    (regenModalOpen s) (regenTarget s) (currentQuestionIndex s) (dragStart s)
    (dragDelta s) (isAnimatingOut s).
Definition setSmartQuestions (v : list SmartQuestion) (s : AppState) : AppState :=
  Build_AppState (step s) (prefs s) v (itinerary s) (itineraryId s)
    (isUnlocked s) (totalDays s) (dayImages s) (regeneratingIds s)
    (regenModalOpen s) (regenTarget s) (currentQuestionIndex s) (dragStart s)
    (dragDelta s) (isAnimatingOut s).
Definition setItinerary (v : option Itinerary) (s : AppState) : AppState :=
  Build_AppState (step s) (prefs s) (smartQuestions s) v (itineraryId s)
    (isUnlocked s) (totalDays s) (dayImages s) (regeneratingIds s)
    (regenModalOpen s) (regenTarget s) (currentQuestionIndex s) (dragStart s)
    (dragDelta s) (isAnimatingOut s).
Definition setItineraryId (v : option string) (s : AppState) : AppState :=
  Build_AppState (step s) (prefs s) (smartQuestions s) (itinerary s) v
    (isUnlocked s) (totalDays s) (dayImages s) (regeneratingIds s)
    (regenModalOpen s) (regenTarget s) (currentQuestionIndex s) (dragStart s)
    (dragDelta s) (isAnimatingOut s).
Definition setIsUnlocked (v : bool) (s : AppState) : AppState :=
  Build_AppState (step s) (prefs s) (smartQuestions s) (itinerary s)
    (itineraryId s) v (totalDays s) (dayImages s) (regeneratingIds s)
    (regenModalOpen s) (regenTarget s) (currentQuestionIndex s) (dragStart s)
    (dragDelta s) (isAnimatingOut s).
Definition setTotalDays (v : Z) (s : AppState) : AppState :=
  Build_AppState (step s) (prefs s) (smartQuestions s) (itinerary s)
    (itineraryId s) (isUnlocked s) v (dayImages s) (regeneratingIds s)
    (regenModalOpen s) (regenTarget s) (currentQuestionIndex s) (dragStart s)
    (dragDelta s) (isAnimatingOut s).
Definition setDayImages (v : gmap Z string) (s : AppState) : AppState :=
  Build_AppState (step s) (prefs s) (smartQuestions s) (itinerary s)
    (itineraryId s) (isUnlocked s) (totalDays s) v (regeneratingIds s)
    (regenModalOpen s) (regenTarget s) (currentQuestionIndex s) (dragStart s)
    (dragDelta s) (isAnimatingOut s).
Definition setRegeneratingIds (v : gset string) (s : AppState) : AppState :=
  Build_AppState (step s) (prefs s) (smartQuestions s) (itinerary s)
    (itineraryId s) (isUnlocked s) (totalDays s) (dayImages s) v
    (regenModalOpen s) (regenTarget s) (currentQuestionIndex s) (dragStart s)
    (dragDelta s) (isAnimatingOut s).
Definition setRegenModalOpen (v : bool) (s : AppState) : AppState :=
  Build_AppState (step s) (prefs s) (smartQuestions s) (itinerary s)
    (itineraryId s) (isUnlocked s) (totalDays s) (dayImages s)
    (regeneratingIds s) v (regenTarget s) (currentQuestionIndex s)
    (dragStart s) (dragDelta s) (isAnimatingOut s).
Definition setRegenTarget (v : option RegenTarget) (s : AppState) : AppState :=
  Build_AppState (step s) (prefs s) (smartQuestions s) (itinerary s)
    (itineraryId s) (isUnlocked s) (totalDays s) (dayImages s)
    (regeneratingIds s) (regenModalOpen s) v (currentQuestionIndex s)
    (dragStart s) (dragDelta s) (isAnimatingOut s).
Definition setCurrentQuestionIndex (v : nat) (s : AppState) : AppState :=
  Build_AppState (step s) (prefs s) (smartQuestions s) (itinerary s)
    (itineraryId s) (isUnlocked s) (totalDays s) (dayImages s)
    (regeneratingIds s) (regenModalOpen s) (regenTarget s) v (dragStart s)
    (dragDelta s) (isAnimatingOut s).
Definition setDragStart (v : option (Z * Z)) (s : AppState) : AppState :=
  Build_AppState (step s) (prefs s) (smartQuestions s) (itinerary s)
    (itineraryId s) (isUnlocked s) (totalDays s) (dayImages s)
    (regeneratingIds s) (regenModalOpen s) (regenTarget s)
    (currentQuestionIndex s) v (dragDelta s) (isAnimatingOut s).
Definition setDragDelta (v : Z * Z) (s : AppState) : AppState :=
  Build_AppState (step s) (prefs s) (smartQuestions s) (itinerary s)
    (itineraryId s) (isUnlocked s) (totalDays s) (dayImages s)
    (regeneratingIds s) (regenModalOpen s) (regenTarget s)
    (currentQuestionIndex s) (dragStart s) v (isAnimatingOut s).
Definition setIsAnimatingOut (v : option Direction) (s : AppState) : AppState :=
  Build_AppState (step s) (prefs s) (smartQuestions s) (itinerary s)
    (itineraryId s) (isUnlocked s) (totalDays s) (dayImages s)
    (regeneratingIds s) (regenModalOpen s) (regenTarget s)
    (currentQuestionIndex s) (dragStart s) (dragDelta s) v.

(** Truthiness of an optional string field: present and not empty. *)
Definition truthy (o : option string) : bool :=
  match o with
  | Some v => negb (String.eqb v "")
  | None => false
  end.

(** *** Preferences step *)

(** [handlePreferencesSubmit]: the new state and the text of the alert, if
    one is raised. *)
Definition handlePreferencesSubmit (s : AppState) : AppState * option string :=
  let d := demographics (prefs s) in
  let t := tripType (prefs s) in
  if bool_decide (t = Solo) && (negb (bool_decide (is_Some (gender d))) || negb (truthy (age d)))
  then (s, Some "Please select your gender and enter your age.")
  else if (bool_decide (t = Couple) || bool_decide (t = Friends)) && negb (truthy (age d))
  then (s, Some "Please enter the average age of your group.")
  else if bool_decide (t = Family) && negb (truthy (kidsAgeRange d))
  then (s, Some "Please select the age range of the children.")
  else (setStep SPECIFICS s, None).

(** *** Specifics step *)

(** [handleSpecificsSubmit] up to the [await]: the step becomes [LOADING]
    and the questions are requested for the current preferences. *)
Definition handleSpecificsSubmit (s : AppState) : AppState * UserPreferences :=
  (setStep LOADING s, prefs s).

(** [handleSpecificsSubmit] after the [await]: a non-empty answer opens the
    questions screen at the first question; otherwise [generateTrip] is
    called with the preferences [captured] by the handler. *)
Definition questionsReceived (captured : UserPreferences)
    (questions : list SmartQuestion) (s : AppState)
  : AppState * option UserPreferences :=
  match questions with
  | [] => (s, Some captured)
  | _ :: _ =>
      (setStep QUESTIONS
         (setCurrentQuestionIndex 0 (setSmartQuestions questions s)), None)
  end.

(** *** Questions step: the swipe card *)

(** What the 300 ms timer armed by [handleSwipeComplete] has captured from
    the render it was created in. *)
Record Timer : Type := {
  t_index : nat;                       (* currentQuestionIndex *)
  t_questions : list SmartQuestion;    (* smartQuestions *)
  t_prefs : UserPreferences            (* prefs, read by generateTrip *)
}.

(** An answer written by [handleSwipeComplete], with the timer it arms. *)
Record Commit : Type := {
  c_question : SmartQuestion;
  c_answer : bool;
  c_timer : Timer
}.

Definition direction_answer (d : Direction) : bool :=
  match d with right => true | left => false end.

(** [handleSwipeComplete], up to the call of [setTimeout]. *)
Definition handleSwipeComplete (direction : Direction) (s : AppState)
  : AppState * option Commit :=
  match isAnimatingOut s with
  | Some _ => (s, None)
  | None =>
      match smartQuestions s !! currentQuestionIndex s with
      | None => (s, None)
      | Some currentQ =>
          let s1 := setIsAnimatingOut (Some direction) s in
          let s2 :=
            setDragDelta (match direction with right => 500 | left => -500 end, 0) s1 in
          let answer := direction_answer direction in
          let s3 :=
            setPrefs
              (set_followUpAnswers
                 (<[q_id currentQ := answer]> (followUpAnswers (prefs s2)))
                 (prefs s2)) s2 in
          (s3, Some {| c_question := currentQ; c_answer := answer;
                       c_timer := {| t_index := currentQuestionIndex s;
                                     t_questions := smartQuestions s;
                                     t_prefs := prefs s |} |})
      end
  end.

(** [handleQuestionsComplete]: enters [LOADING] and calls [generateTrip],
    which sends the preferences of the render the handler belongs to. *)
Definition handleQuestionsComplete (captured : UserPreferences) (s : AppState)
  : AppState * option UserPreferences :=
  (setStep LOADING s, Some captured).

(** The callback of the timer; the second component is the request to the
    generation service, when one is sent. *)
Definition swipeTimeout (t : Timer) (s : AppState)
  : AppState * option UserPreferences :=
  let s1 := setIsAnimatingOut None s in
  let s2 := setDragDelta (0, 0) s1 in
  let nextIndex := (t_index t + 1)%nat in
  if bool_decide (length (t_questions t) ≤ nextIndex)%nat
  then handleQuestionsComplete (t_prefs t) s2
  else (setCurrentQuestionIndex nextIndex s2, None).

Definition onPointerDown (x y : Z) (s : AppState) : AppState :=
  match isAnimatingOut s with
  | Some _ => s
  | None => setDragStart (Some (x, y)) s
  end.

Definition onPointerMove (x y : Z) (s : AppState) : AppState :=
  match dragStart s, isAnimatingOut s with
  | Some (x0, y0), None => setDragDelta (x - x0, y - y0) s
  | _, _ => s
  end.

Definition threshold : Z := 100.

Definition onPointerUp (s : AppState) : AppState * option Commit :=
  match dragStart s, isAnimatingOut s with
  | Some _, None =>
      let '(s1, c) :=
        if bool_decide (threshold < (dragDelta s).1)
        then handleSwipeComplete right s
        else if bool_decide ((dragDelta s).1 < - threshold)
        then handleSwipeComplete left s
        else (setDragDelta (0, 0) s, None) in
      (setDragStart None s1, c)
  | _, _ => (s, None)
  end.

(** One question answered with a button and its animation run to the end:
    the state, the answer written and the generation request sent. *)
Definition answer_one (d : Direction) (s : AppState)
  : AppState * list (string * bool) * option UserPreferences :=
  match handleSwipeComplete d s with
  | (s1, Some c) =>
      let '(s2, req) := swipeTimeout (c_timer c) s1 in
      (s2, [(q_id (c_question c), c_answer c)], req)
  | (s1, None) => (s1, [], None)
  end.

(** A traversal: the answers [ds] given one after the other. *)
Fixpoint answer_all (ds : list Direction) (s : AppState)
  : AppState * list (string * bool) * option UserPreferences :=
  match ds with
  | [] => (s, [], None)
  | d :: ds' =>
      let '(s1, log1, req1) := answer_one d s in
      let '(s2, log2, req2) := answer_all ds' s1 in
      (s2, (log1 ++ log2)%list, from_option Some req2 req1)
  end.

(** *** Itinerary step: images *)

(** One task of [loadImages]: the day whose image is requested. *)
Record ImageTask : Set := {
  it_dayNumber : Z;
  it_title : string;
  it_area : string;
  it_destination : string;
  it_vibe : string
}.

(** [loadImages]: the cache is set to the images already known, and one
    task is started for every day without one. *)
Definition loadImages (ds : list DayPlan) (existingImages : gmap Z string)
    (s : AppState) : AppState * list ImageTask :=
  (setDayImages existingImages s,
   omap (λ day,
           if truthy (existingImages !! dayNumber day) then None
           else Some {| it_dayNumber := dayNumber day; it_title := title day;
                        it_area := areaFocus day;
                        it_destination :=
                          if String.eqb (destination (prefs s)) ""
                          then "Destination" else destination (prefs s);
                        it_vibe := dayVibe day |}) ds).

(** [prev => ({ ...prev, [dayNumber]: img })] *)
Definition mergeDayImage (dayNum : Z) (img : string) (cache : gmap Z string)
  : gmap Z string :=
  <[dayNum := img]> cache.

(** The continuation of a task after [generateDayCardImage] settled: [img]
    is the image, [None] when the service answered null or failed. *)
Definition imageDone (dayNum : Z) (img : option string) (s : AppState)
  : AppState :=
  if truthy img
  then setDayImages (mergeDayImage dayNum (default "" img) (dayImages s)) s
  else s.

(** The completions [cs] applied in the order given. *)
Definition imagesDone (cs : list (Z * option string)) (s : AppState) : AppState :=
  foldl (λ acc c, imageDone c.1 c.2 acc) s cs.

(** *** Itinerary step: regenerating and deleting an activity *)

(** [`${dayNum}-${period}-${idx}`] *)
Definition slot_key (dayNum : Z) (period : Period) (idx : nat) : string :=
  pretty dayNum +:+ "-" +:+ period_name period +:+ "-" +:+ pretty idx.

Definition openRegenerateModal (dayNum : Z) (period : Period) (idx : nat)
    (activity : Activity) (dayContext : DayPlan) (s : AppState) : AppState :=
  setRegenModalOpen true
    (setRegenTarget
       (Some {| rt_dayNum := dayNum; rt_period := period; rt_idx := idx;
                rt_activity := activity; rt_dayContext := dayContext |}) s).

(** The call of [getAlternativeActivity]. *)
Record AlternativeRequest : Type := {
  ar_prefs : UserPreferences;
  ar_activity : Activity;
  ar_dayTitle : string;
  ar_area : string;
  ar_timeOfDay : string;
  ar_existingNames : list string;
  ar_instruction : string
}.

(** What the rest of [confirmRegeneration] keeps across the [await]. *)
Record Pending : Set := {
  p_dayNum : Z;
  p_period : Period;
  p_idx : nat;
  p_id : string
}.

(** The names of all activities of the itinerary, day by day. *)
Definition existingNames (it : option Itinerary) : list string :=
  match it with
  | None => []
  | Some p =>
      flat_map (λ d, (a_name <$> dayMorning d)
                       ++ (a_name <$> dayAfternoon d)
                       ++ (a_name <$> dayEvening d))%list (days p)
  end.

(** [confirmRegeneration] up to the [await]: the state and, unless there
    is no target, the service call with the pending continuation. *)
Definition confirmRegeneration (instruction : string) (s : AppState)
  : AppState * option (AlternativeRequest * Pending) :=
  match regenTarget s with
  | None => (s, None)
  | Some t =>
      let s1 := setRegenModalOpen false s in
      let id := slot_key (rt_dayNum t) (rt_period t) (rt_idx t) in
      let s2 := setRegeneratingIds ({[id]} ∪ regeneratingIds s1) s1 in
      (s2,
       Some ({| ar_prefs := prefs s; ar_activity := rt_activity t;
                ar_dayTitle := title (rt_dayContext t);
                ar_area := areaFocus (rt_dayContext t);
                ar_timeOfDay := period_name (rt_period t);
                ar_existingNames := existingNames (itinerary s);
                ar_instruction := instruction |},
             {| p_dayNum := rt_dayNum t; p_period := rt_period t;
                p_idx := rt_idx t; p_id := id |}))
  end.

(** [if (newActivities[idx]) newActivities[idx] = newActivity] on a copy of
    the list. *)
Definition replace_at (idx : nat) (newActivity : Activity)
    (activities : list Activity) : list Activity :=
  match activities !! idx with
  | Some _ => <[idx := newActivity]> activities
  | None => activities
  end.

(** The updater passed to [setItinerary] on success. *)
Definition replaceActivity (dayNum : Z) (period : Period) (idx : nat)
    (newActivity : Activity) (prev : option Itinerary) : option Itinerary :=
  match prev with
  | None => None
  | Some p =>
      Some (set_days
              ((λ d, if bool_decide (dayNumber d ≠ dayNum) then d
                     else set_period period
                            (replace_at idx newActivity (period_of period d)) d)
                 <$> days p) p)
  end.

(** How the awaited call settles. *)
Inductive Outcome : Set :=
| Resolved (newActivity : option Activity)   (* an activity, or null *)
| Thrown.                                    (* the promise is rejected *)

(** [confirmRegeneration] after the [await], in the state current then. *)
Definition regenerationDone (pd : Pending) (o : Outcome) (s : AppState)
  : AppState :=
  let s1 :=
    match o with
    | Resolved (Some newActivity) =>
        setItinerary
          (replaceActivity (p_dayNum pd) (p_period pd) (p_idx pd) newActivity
             (itinerary s)) s
    | Resolved None => s
    | Thrown => s
    end in
  let s2 := setRegeneratingIds (regeneratingIds s1 ∖ {[p_id pd]}) s1 in
  setRegenTarget None s2.

(** The updater of [handleDeleteActivity]: [newList.splice(idx, 1)]. *)
Definition deleteActivity (dayNum : Z) (period : Period) (idx : nat)
    (prev : option Itinerary) : option Itinerary :=
  match prev with
  | None => None
  | Some p =>
      Some (set_days
              ((λ d, if bool_decide (dayNumber d ≠ dayNum) then d
                     else set_period period (delete idx (period_of period d)) d)
                 <$> days p) p)
  end.

Definition handleDeleteActivity (dayNum : Z) (period : Period) (idx : nat)
    (s : AppState) : AppState :=
  setItinerary (deleteActivity dayNum period idx (itinerary s)) s.

(** *** Paywall, resume and restart *)

(** What the service layer hands to the component: the answer of the
    server typed as [{ id, plan: Itinerary, unlocked, totalDays, images }];
    [cd_plan] is [None] when the plan of the answer is null. *)
Record ClientData : Type := {
  cd_id : string;
  cd_plan : option Itinerary;
  cd_unlocked : bool;
  cd_totalDays : Z;
  cd_images : gmap Z string
}.

Definition of_resource (r : Server.Resource) : ClientData :=
  {| cd_id := Server.r_id r;
     cd_plan := match Server.r_plan r with
                | Server.PlanDays p => Some p
                | Server.PlanNull => None
                end;
     cd_unlocked := Server.r_unlocked r;
     cd_totalDays := Server.r_totalDays r;
     cd_images := Server.r_images r |}.

(** The continuation of [getItineraryById] on the plain resume path. *)
Definition resumeLoaded (data : option ClientData) (s : AppState)
  : AppState * list ImageTask :=
  match data with
  | Some d =>
      match cd_plan d with
      | Some plan =>
          loadImages (days plan) (cd_images d)
            (setStep ITINERARY
               (setTotalDays (cd_totalDays d)
                  (setIsUnlocked (cd_unlocked d)
                     (setItineraryId (Some (cd_id d))
                        (setItinerary (Some plan) s)))))
      | None => (setStep START s, [])
      end
  | None => (setStep START s, [])
  end.

(** The continuation of [generateItinerary] in [generateTrip]. *)
Definition tripGenerated (result : option ClientData) (s : AppState)
  : AppState * list ImageTask :=
  match result with
  | Some d =>
      match cd_plan d with
      | Some plan =>
          loadImages (days plan) ∅
            (setStep ITINERARY
               (setTotalDays (cd_totalDays d)
                  (setIsUnlocked (cd_unlocked d)
                     (setItineraryId (Some (cd_id d))
                        (setItinerary (Some plan) s)))))
      | None => (setStep START s, [])
      end
  | None => (setStep START s, [])
  end.

(** What the itinerary screen shows. *)
Record ItineraryView : Set := {
  displayDays : list DayPlan;
  lockedDaysCount : Z;
  unlockShown : bool
}.

(** The [ITINERARY] branch of the render function; [None] when another
    screen, or nothing, is rendered. *)
Definition itineraryView (s : AppState) : option ItineraryView :=
  if bool_decide (step s = ITINERARY) then
    match itinerary s with
    | Some it =>
        let shown := if isUnlocked s then days it else take 2 (days it) in
        let locked := totalDays s - Z.of_nat (length shown) in
        Some {| displayDays := shown; lockedDaysCount := locked;
                unlockShown := negb (isUnlocked s) && bool_decide (0 < locked) |}
    | None => None
    end
  else None.

(** The close button of the itinerary header: [() => setStep(Step.START)]. *)
Definition restart (s : AppState) : AppState := setStep START s.

(** *** Helpers and handlers of the earlier steps *)

Import Stdlib.Strings.Ascii.

(** [formatDate]: an ISO date shown as DD/MM/YYYY. *)
Definition formatDate (isoDate : string) : string :=
  if String.eqb isoDate "" then ""
  else
    let parts := AiService.split_on "-"%char isoDate in
    AiService.part parts 2 +:+ "/" +:+ AiService.part parts 1
      +:+ "/" +:+ AiService.part parts 0.

(** [{ ...prev, destination: v }] *)
Definition set_destination (v : string) (p : UserPreferences)
  : UserPreferences :=
  {| destination := v; startDate := startDate p; endDate := endDate p;
     hotelLocation := hotelLocation p; tripType := tripType p;
     budget := budget p; vibe := vibe p; pace := pace p;
     interests := interests p; demographics := demographics p;
     fixedPlans := fixedPlans p; mustVisit := mustVisit p;
     followUpAnswers := followUpAnswers p |}.

(** [{ ...prefs, tripType: t, demographics: d }] *)
Definition set_tripType_demographics (t : TripType) (d : Demographics)
    (p : UserPreferences) : UserPreferences :=
  {| destination := destination p; startDate := startDate p;
     endDate := endDate p; hotelLocation := hotelLocation p; tripType := t;
     budget := budget p; vibe := vibe p; pace := pace p;
     interests := interests p; demographics := d;
     fixedPlans := fixedPlans p; mustVisit := mustVisit p;
     followUpAnswers := followUpAnswers p |}.

(** [{ ...prefs, interests: l }] *)
Definition set_interests (l : list string) (p : UserPreferences)
  : UserPreferences :=
  {| destination := destination p; startDate := startDate p;
     endDate := endDate p; hotelLocation := hotelLocation p;
     tripType := tripType p; budget := budget p; vibe := vibe p;
     pace := pace p; interests := l; demographics := demographics p;
     fixedPlans := fixedPlans p; mustVisit := mustVisit p;
     followUpAnswers := followUpAnswers p |}.

(** [{ ...prefs, fixedPlans: l }] *)
Definition set_fixedPlans (l : list FixedPlan) (p : UserPreferences)
  : UserPreferences :=
  {| destination := destination p; startDate := startDate p;
     endDate := endDate p; hotelLocation := hotelLocation p;
     tripType := tripType p; budget := budget p; vibe := vibe p;
     pace := pace p; interests := interests p;
     demographics := demographics p; fixedPlans := l;
     mustVisit := mustVisit p; followUpAnswers := followUpAnswers p |}.

(** What [validateDestination] resolves to: [isValid] is false when the
    answer has no such field (the error body of a failed route). *)
Record ValidationResult : Set := {
  isValid : bool;
  formattedName : option string
}.

(** [validateDestination] of the service layer: the body the server
    answered, or, when the request itself fails ([None]), the destination
    accepted as typed. *)
Definition validateDestination (destination : string)
    (body : option ValidationResult) : ValidationResult :=
  match body with
  | Some r => r
  | None => {| isValid := true; formattedName := Some destination |}
  end.

(** [handleStartSubmit] up to the [await]: the destination sent for
    validation, unless a field is missing. *)
Definition handleStartSubmit (s : AppState) : option string :=
  if String.eqb (destination (prefs s)) ""
     || String.eqb (startDate (prefs s)) ""
     || String.eqb (endDate (prefs s)) ""
  then None
  else Some (destination (prefs s)).

(** How the awaited validation settles. *)
Inductive Validation : Set :=
| ValidationResolved (result : option ValidationResult)
| ValidationThrown.

(** [handleStartSubmit] after the [await]: the state and the alert, if one
    is raised. *)
Definition destinationValidated (v : Validation) (s : AppState)
  : AppState * option string :=
  match v with
  | ValidationThrown => (setStep PREFERENCES s, None)
  | ValidationResolved result =>
      match result with
      | Some r =>
          if isValid r then
            let s1 :=
              if truthy (formattedName r)
              then setPrefs
                     (set_destination (default "" (formattedName r)) (prefs s)) s
              else s in
            (setStep PREFERENCES s1, None)
          else
            (s, Some "We couldn't find that destination. Please check the spelling or try a specific city/country.")
      | None =>
          (s, Some "We couldn't find that destination. Please check the spelling or try a specific city/country.")
      end
  end.

(** The cards of the trip type: the choice empties the demographics. *)
Definition selectTripType (t : TripType) (s : AppState) : AppState :=
  setPrefs
    (set_tripType_demographics t
       {| gender := None; age := None; kidsAgeRange := None |} (prefs s)) s.

(** The inputs of the "About You" section. *)
Definition chooseGender (g : Gender) (s : AppState) : AppState :=
  let d := demographics (prefs s) in
  setPrefs
    (set_tripType_demographics (tripType (prefs s))
       {| gender := Some g; age := age d; kidsAgeRange := kidsAgeRange d |}
       (prefs s)) s.

Definition enterAge (v : string) (s : AppState) : AppState :=
  let d := demographics (prefs s) in
  setPrefs
    (set_tripType_demographics (tripType (prefs s))
       {| gender := gender d; age := Some v; kidsAgeRange := kidsAgeRange d |}
       (prefs s)) s.

Definition chooseKidsAgeRange (range : string) (s : AppState) : AppState :=
  let d := demographics (prefs s) in
  setPrefs
    (set_tripType_demographics (tripType (prefs s))
       {| gender := gender d; age := age d; kidsAgeRange := Some range |}
       (prefs s)) s.

(** The four buttons of the age range of the children. *)
Definition kidsAgeRanges : list string := ["0-5"; "5-10"; "10-15"; "15-20"].

(** The card of an interest: present interests are removed, absent ones
    appended. *)
Definition toggleInterest (item : string) (s : AppState) : AppState :=
  let l := interests (prefs s) in
  let newInterests :=
    if bool_decide (item ∈ l)
    then filter (λ i, i ≠ item) l
    else (l ++ [item])%list in
  setPrefs (set_interests newInterests (prefs s)) s.

(** [addFixedPlan]: [newId] is the random id drawn for the plan, [tempPlan]
    the date and description typed so far; the result carries the new
    [tempPlan]. *)
Definition addFixedPlan (newId : string) (tempPlan : string * string)
    (s : AppState) : AppState * (string * string) :=
  if negb (String.eqb tempPlan.1 "") && negb (String.eqb tempPlan.2 "")
  then
    (setPrefs
       (set_fixedPlans
          (fixedPlans (prefs s)
             ++ [{| fp_id := newId; fp_date := tempPlan.1;
                    fp_description := tempPlan.2 |}])%list (prefs s)) s,
     ("", ""))
  else (s, tempPlan).

Definition removeFixedPlan (id : string) (s : AppState) : AppState :=
  setPrefs
    (set_fixedPlans (filter (λ p, fp_id p ≠ id) (fixedPlans (prefs s)))
       (prefs s)) s.

(** *** Opening a shared link *)

(** The query parameters read on mount. *)
Record EntryParams : Set := {
  param_id : option string;
  param_success : option string;
  param_session_id : option string
}.

(** The request the mount effect issues. *)
Inductive EntryRequest : Set :=
| VerifyRequest (itineraryId sessionId : string)
| LoadRequest (id : string).

(** The mount effect up to its first request. *)
Definition onMount (params : EntryParams) (s : AppState)
  : AppState * option EntryRequest :=
  if truthy (param_id params) then
    let sharedId := default "" (param_id params) in
    if bool_decide (param_success params = Some "true")
       && truthy (param_session_id params)
    then (setItineraryId (Some sharedId) (setStep VERIFYING_PAYMENT s),
          Some (VerifyRequest sharedId (default "" (param_session_id params))))
    else (setStep LOADING s, Some (LoadRequest sharedId))
  else (s, None).

(** The continuation of [verifyPayment]: on success the id to fetch; on
    failure an alert is raised and the wizard starts over. *)
Definition paymentVerified (sharedId : string) (success : bool) (s : AppState)
  : AppState * option string :=
  if success then (s, Some sharedId) else (setStep START s, None).

(** The continuation of [getItineraryById] after a verified payment.  With
    no answer nothing is done; with an answer the setters run before
    [data.plan.days] is read, so an answer without a plan still moves the
    step but starts no image task. *)
Definition resumeVerified (data : option ClientData) (s : AppState)
  : AppState * list ImageTask :=
  match data with
  | None => (s, [])
  | Some d =>
      let s1 :=
        setStep ITINERARY
          (setTotalDays (cd_totalDays d)
             (setIsUnlocked true
                (setItineraryId (Some (cd_id d))
                   (setItinerary (cd_plan d) s)))) in
      match cd_plan d with
      | Some plan => loadImages (days plan) (cd_images d) s1
      | None => (s1, [])
      end
  end.

(** [verifyPayment] of the service layer: true only for the success body;
    [None] is a failed request. *)
Definition verifyPayment (answer : option Server.VerifyResponse) : bool :=
  match answer with
  | Some Server.VerifyOk => true
  | _ => false
  end.

(** [getItineraryById] of the service layer: [None] is an answer that is
    not ok, or a failed request. *)
Definition getItineraryById (answer : option Server.Resource)
  : option ClientData :=
  of_resource <$> answer.

(** [generateItinerary] of the service layer: the body of the answer.  The
    error body of a failed route has no plan and a failed request gives
    null; [generateTrip] treats both alike, and both are [None]. *)
Definition generateItinerary (answer : option Server.Resource)
  : option ClientData :=
  of_resource <$> answer.

(** *** The client against the server

    The handlers run against the routes of the server, every request
    reaching it and every answer coming back. *)

(** A page opened with the query parameters [params]. *)
Definition openLink (params : EntryParams)
    (retrieve : string → option Server.CheckoutSession) (db : Server.Db)
    (s : AppState) : Server.Db * AppState :=
  match onMount params s with
  | (s1, Some (VerifyRequest id sessionId)) =>
      let out := Server.verify_payment retrieve db sessionId id in
      match paymentVerified id (verifyPayment (Some out.2)) s1 with
      | (s2, Some id') =>
          (out.1,
           (resumeVerified (getItineraryById (Server.get_itinerary out.1 id'))
              s2).1)
      | (s2, None) => (out.1, s2)
      end
  | (s1, Some (LoadRequest id)) =>
      (db, (resumeLoaded (getItineraryById (Server.get_itinerary db id)) s1).1)
  | (s1, None) => (db, s1)
  end.

(** [generateTrip] against [POST /api/generate-trip]. *)
Definition generateTrip (fullPlan : option Itinerary) (id : string)
    (db : Server.Db) (s : AppState) : Server.Db * AppState :=
  let out := Server.generate_trip fullPlan id db in
  (out.1, (tripGenerated (generateItinerary out.2) s).1).

(** An image task of [loadImages] that settled: the image is merged into
    the cache and saved on the server under [id]. *)
Definition imageTaskDone (id : string) (dayNum : Z) (img : option string)
    (st : Server.Db * AppState) : Server.Db * AppState :=
  (if truthy img then Server.save_image id dayNum (default "" img) st.1
   else st.1,
   imageDone dayNum img st.2).

(** The regeneration dialog is rendered when
    [regenModalOpen && regenTarget]. *)
Definition regenerateModalShown (s : AppState) : bool :=
  regenModalOpen s && bool_decide (is_Some (regenTarget s)).

(** A drag on the card: pressed at [(x0, y0)], moved through [moves],
    released. *)
Definition drag (x0 y0 : Z) (moves : list (Z * Z)) (s : AppState)
  : AppState * option Commit :=
  onPointerUp
    (foldl (λ acc m, onPointerMove m.1 m.2 acc) (onPointerDown x0 y0 s) moves).

End App.

(** ** Notions of the specification *)

Module Spec.
Import Server App.

(** A demographic field counts as filled in when it holds a value other
    than the empty text. *)
Definition filled (o : option string) : Prop :=
  ∃ v, o = Some v ∧ v ≠ "".

(** The completeness table of section 3: Solo needs gender and age, Couple
    and Friends need the age, Family needs the age range of the children. *)
Definition demographics_complete (t : TripType) (d : Demographics) : Prop :=
  match t with
  | Solo => is_Some (gender d) ∧ filled (age d)
  | Couple => filled (age d)
  | Friends => filled (age d)
  | Family => filled (kidsAgeRange d)
  end.

(** The retrieved checkout session is paid and refers to the itinerary. *)
Definition payment_confirmed (retrieve : string → option CheckoutSession)
    (sessionId itineraryId : string) : Prop :=
  ∃ session, retrieve sessionId = Some session
             ∧ payment_status session = "paid"
             ∧ client_reference_id session = Some itineraryId.

(** Completions of image tasks agree per day: two images delivered for the
    same day number are the same image. *)
Definition agree_per_day (cs : list (Z * option string)) : Prop :=
  ∀ k i i', (k, i) ∈ cs → (k, i') ∈ cs →
            truthy i = true → truthy i' = true → i = i'.

(** The answers a traversal writes: question [k] of [qs] gets answer [k]
    of [ds]. *)
Definition answers_of (qs : list SmartQuestion) (ds : list Direction)
  : list (string * bool) :=
  zip (q_id <$> qs) (direction_answer <$> ds).

(** The map after the writes [ws], applied from the left. *)
Definition write_all (ws : list (string * bool)) (m : gmap string bool)
  : gmap string bool :=
  foldl (λ acc w, <[w.1 := w.2]> acc) m ws.

(** The shape the two updaters of the itinerary share: the list of one
    period is rewritten by [F] in every day numbered [dayNum]. *)
Definition on_period (dayNum : Z) (period : Period)
    (F : list Activity → list Activity) (d : DayPlan) : DayPlan :=
  if bool_decide (dayNumber d ≠ dayNum) then d
  else set_period period (F (period_of period d)) d.

(** The text [s] has no character [c]. *)
Fixpoint free_of (c : Ascii.ascii) (s : string) : Prop :=
  match s with
  | EmptyString => True
  | String a rest => a ≠ c ∧ free_of c rest
  end.

(** The link carries no payment marker to act on: no success marker, or
    no session reference. *)
Definition plain_link (params : EntryParams) : Prop :=
  param_success params ≠ Some "true"
  ∨ truthy (param_session_id params) = false.

End Spec.

(** ** Sample data

    A five-day trip to Lisbon, used to run the definitions on concrete
    input. *)

Module Sample.
Import Server App.

Definition mk_activity (name : string) : Activity :=
  {| a_name := name; a_description := ""; a_emoji := "*";
     a_category := "Sight"; a_mapsQuery := name; a_website := None;
     a_priceLevel := "$$"; a_admissionFee := "Free"; a_rating := 45;
     a_openingHours := "09:00-18:00"; a_isLocalRecommendation := false |}.

Definition tower : Activity := mk_activity "Belem Tower".
Definition tram : Activity := mk_activity "Tram 28".
Definition fado : Activity := mk_activity "Fado night".
Definition bar : Activity := mk_activity "Rooftop bar".
Definition market : Activity := mk_activity "Time Out Market".

Definition mk_day (n : Z) (m a e : list Activity) : DayPlan :=
  {| dayNumber := n; date := "01/06/2025"; title := "Day";
     areaFocus := "Alfama"; dayVibe := "Both"; vibeIcons := [];
     highlightEvent := None; dayMorning := m; dayAfternoon := a;
     dayEvening := e |}.

Definition day1 : DayPlan := mk_day 1 [tower] [tram] [fado; bar].
Definition day2 : DayPlan := mk_day 2 [tram] [] [fado].
Definition day3 : DayPlan := mk_day 3 [] [tower] [].
Definition day4 : DayPlan := mk_day 4 [tower] [] [].
Definition day5 : DayPlan := mk_day 5 [] [] [bar].

Definition lisbon : Itinerary :=
  {| planDestination := "Lisbon, Portugal";
     days := [day1; day2; day3; day4; day5] |}.

Definition lisbon_doc : Doc :=
  {| doc_id := "abc"; doc_email := None; doc_unlocked := false;
     doc_plan := PlanDays lisbon; doc_images := ∅ |}.

Definition db1 : Db := {[ "abc" := lisbon_doc ]}.

Definition lisbon_resource : Resource :=
  {| r_id := "abc"; r_unlocked := false;
     r_plan := PlanDays (set_days [day1; day2] lisbon);
     r_totalDays := 5; r_images := ∅ |}.

(** The itinerary screen of the locked five-day trip. *)
Definition locked_screen : AppState :=
  (resumeLoaded (Some (of_resource lisbon_resource)) initialState).1.

Definition paid_session : CheckoutSession :=
  {| payment_status := "paid"; client_reference_id := Some "abc" |}.

Definition unpaid_session : CheckoutSession :=
  {| payment_status := "unpaid"; client_reference_id := Some "abc" |}.

(** A payment provider that knows two sessions. *)
Definition stripe1 (sessionId : string) : option CheckoutSession :=
  if String.eqb sessionId "cs_paid" then Some paid_session
  else if String.eqb sessionId "cs_open" then Some unpaid_session
  else None.

Definition q_fado : SmartQuestion :=
  {| q_id := "fado_show"; q_emoji := "*"; q_title := "Fado";
     q_description := "Would you enjoy a fado show?" |}.
Definition q_surf : SmartQuestion :=
  {| q_id := "surf_lesson"; q_emoji := "*"; q_title := "Surf";
     q_description := "Up for a surf lesson?" |}.

(** The questions screen, two questions received, none answered. *)
Definition asking : AppState :=
  (questionsReceived initialPrefs [q_fado; q_surf]
     (handleSpecificsSubmit initialState).1).1.

(** A solo traveller who gave a gender but no age. *)
Definition solo_no_age : AppState :=
  setStep PREFERENCES
    (setPrefs
       {| destination := "Lisbon"; startDate := "2025-06-01";
          endDate := "2025-06-05"; hotelLocation := ""; tripType := Solo;
          budget := "Medium"; vibe := "Both"; pace := "Balanced";
          interests := [];
          demographics :=
            {| gender := Some Female; age := None; kidsAgeRange := None |};
          fixedPlans := []; mustVisit := ""; followUpAnswers := ∅ |}
       initialState).

(** The itinerary screen after a first traversal: a draft with a
    destination and one answer, and one cached image. *)
Definition visited : AppState :=
  setDayImages {[ 1 := "data:image/png;base64,AAAA" ]}
    (setPrefs
       {| destination := "Lisbon"; startDate := "2025-06-01";
          endDate := "2025-06-05"; hotelLocation := ""; tripType := Couple;
          budget := "Medium"; vibe := "Both"; pace := "Balanced";
          interests := ["Culture"];
          demographics :=
            {| gender := None; age := Some "30"; kidsAgeRange := None |};
          fixedPlans := []; mustVisit := "";
          followUpAnswers := {[ "fado_show" := true ]} |}
       locked_screen).

(** The itinerary screen with the regeneration dialog confirmed once for
    the first evening activity of day 1, the call still in flight, and the
    dialog opened again on the same card. *)
Definition regenerating : AppState :=
  openRegenerateModal 1 evening 0 fado day1
    (confirmRegeneration ""
       (openRegenerateModal 1 evening 0 fado day1 locked_screen)).1.

End Sample.

(** ** Properties *)

Import Server App.

(** *** The paywall *)

Lemma take_two_length {A} (l : list A) :
  Z.of_nat (length (take 2 l)) = Z.min 2 (Z.of_nat (length l)).
Proof. rewrite length_take. lia. Qed.

(** The answer to a fresh generation is locked and carries at most two
    days. *)
Lemma generate_trip_locked (id : string) (fullPlan : Itinerary) :
  let r := generate_trip_response id fullPlan in
  r_unlocked r = false
  ∧ r_totalDays r = Z.of_nat (length (days fullPlan))
  ∧ plan_days_length (r_plan r) = Z.min 2 (r_totalDays r).
Proof. simpl. repeat split. apply take_two_length. Qed.

(** The itinerary screen of a locked state. *)
Lemma itineraryView_locked (s : AppState) (it : Itinerary) :
  step s = ITINERARY → itinerary s = Some it → isUnlocked s = false →
  itineraryView s =
    Some {| displayDays := take 2 (days it);
            lockedDaysCount := totalDays s - Z.of_nat (length (take 2 (days it)));
            unlockShown :=
              bool_decide (0 < totalDays s - Z.of_nat (length (take 2 (days it)))) |}.
Proof.
  intros Hstep Hit Hlock. unfold itineraryView.
  rewrite Hstep, Hit, Hlock. by rewrite bool_decide_eq_true_2.
Qed.

(** C1.  For a stored itinerary that is locked, [GET /api/itinerary/:id]
    answers the plan cut down to its first two days, locked, with
    [totalDays] the stored number of days, so that the plan the client
    sees has [min(2, totalDays)] days, at most that many.  The itinerary
    screen built from the answer renders exactly these [min(2, totalDays)]
    days, counts [totalDays - displayed] locked days and shows the unlock
    card exactly when that count is positive.  A locked screen with
    [totalDays = 5] and two days received counts three locked days and
    shows the card. *)
Theorem locked_resource_view (db : Db) (id : string) (doc : Doc)
    (p : Itinerary) (s : AppState) :
  db !! id = Some doc →
  doc_unlocked doc = false →
  doc_plan doc = PlanDays p →
  ∃ r,
    get_itinerary db id = Some r
    ∧ r_unlocked r = false
    ∧ r_plan r = PlanDays (set_days (take 2 (days p)) p)
    ∧ r_totalDays r = Z.of_nat (length (days p))
    ∧ plan_days_length (r_plan r) = Z.min 2 (r_totalDays r)
    ∧ plan_days_length (r_plan r) ≤ Z.min 2 (r_totalDays r)
    ∧ (∃ v, itineraryView (resumeLoaded (Some (of_resource r)) s).1 = Some v
            ∧ displayDays v = take 2 (days p)
            ∧ Z.of_nat (length (displayDays v)) = Z.min 2 (r_totalDays r)
            ∧ lockedDaysCount v
              = r_totalDays r - Z.of_nat (length (displayDays v))
            ∧ (unlockShown v = true ↔ 0 < lockedDaysCount v))
    ∧ (∀ (s' : AppState) (it : Itinerary),
         step s' = ITINERARY → itinerary s' = Some it →
         isUnlocked s' = false → totalDays s' = 5 →
         length (days it) = 2%nat →
         ∃ v, itineraryView s' = Some v
              ∧ lockedDaysCount v = 3 ∧ unlockShown v = true).
Proof.
  intros Hdoc Hlocked Hplan.
  unfold get_itinerary. rewrite Hdoc, Hlocked, Hplan. simpl.
  eexists. split; [done|]. simpl. split; [done|]. split; [done|].
  split; [done|].
  pose proof (take_two_length (days p)) as Hlen.
  split; [done|]. split; [lia|]. split.
  - unfold resumeLoaded, of_resource, itineraryView. simpl.
    rewrite take_take, Nat.min_id.
    eexists. split; [done|]. simpl. rewrite bool_decide_eq_true.
    repeat split; try done.
  - intros s' it Hstep Hit Hlock Htot Hdays.
    rewrite (itineraryView_locked s' it) by done.
    eexists. split; [done|]. simpl.
    rewrite length_take, Hdays, Htot. done.
Qed.

Lemma locked_resource_view_witness :
  get_itinerary Sample.db1 "abc" = Some Sample.lisbon_resource
  ∧ ∃ v, itineraryView Sample.locked_screen = Some v
         ∧ displayDays v = [Sample.day1; Sample.day2]
         ∧ lockedDaysCount v = 3 ∧ unlockShown v = true.
Proof.
  destruct (locked_resource_view Sample.db1 "abc" Sample.lisbon_doc
              Sample.lisbon initialState eq_refl eq_refl eq_refl)
    as (r & Hget & _ & Hplan & Htotal & _ & _ & (v & Hview & Hdays & _) & Hfive).
  split; [reflexivity|].
  destruct (Hfive Sample.locked_screen
              (set_days [Sample.day1; Sample.day2] Sample.lisbon))
    as (v' & Hview' & Hcount & Hshown); try reflexivity.
  exists v'. split; [exact Hview'|]. split; [|by split].
  injection Hview' as <-. reflexivity.
Defined.

(** C10.  [POST /api/verify-payment] answers success and sets the
    [unlocked] flag of the requested itinerary when the retrieved session
    is paid and refers to that itinerary; in every other case (session not
    paid, another reference, retrieval failed) it answers a failure and
    leaves the collection as it was.  No flag of any document changes
    without a confirmed payment, and only to [true]. *)
Theorem verify_payment_guard (retrieve : string → option CheckoutSession)
    (db : Db) (sessionId itineraryId : string) :
  let out := verify_payment retrieve db sessionId itineraryId in
  (Spec.payment_confirmed retrieve sessionId itineraryId →
     out.2 = VerifyOk
     ∧ out.1 !! itineraryId = set_unlocked true <$> db !! itineraryId
     ∧ ∀ id, id ≠ itineraryId → out.1 !! id = db !! id)
  ∧ (¬ Spec.payment_confirmed retrieve sessionId itineraryId →
     out.2 ≠ VerifyOk ∧ out.1 = db)
  ∧ (∀ id doc doc',
       db !! id = Some doc → out.1 !! id = Some doc' →
       doc_unlocked doc' ≠ doc_unlocked doc →
       Spec.payment_confirmed retrieve sessionId itineraryId
       ∧ id = itineraryId ∧ doc_unlocked doc' = true).
Proof.
  unfold verify_payment, Spec.payment_confirmed.
  destruct (retrieve sessionId) as [session|] eqn:Hret; simpl.
  - destruct (bool_decide (payment_status session = "paid")
              && bool_decide (client_reference_id session = Some itineraryId))
      eqn:Hcond; simpl.
    + apply andb_true_iff in Hcond as [Hpaid Href].
      apply bool_decide_eq_true in Hpaid, Href.
      assert (∃ session0, Some session = Some session0
                ∧ payment_status session0 = "paid"
                ∧ client_reference_id session0 = Some itineraryId) as Hok
        by (by exists session).
      split; [|split].
      * intros _. split; [done|]. unfold mark_unlocked. split.
        -- by rewrite lookup_alter_eq.
        -- intros id Hid. by rewrite lookup_alter_ne.
      * intros Hno. by destruct Hno.
      * intros id doc doc' Hdoc Hdoc' Hflag. split; [done|].
        unfold mark_unlocked in Hdoc'.
        destruct (decide (id = itineraryId)) as [->|Hne].
        -- rewrite lookup_alter_eq, Hdoc in Hdoc'. simpl in Hdoc'.
           injection Hdoc' as <-. done.
        -- rewrite lookup_alter_ne, Hdoc in Hdoc' by done.
           injection Hdoc' as <-. done.
    + split; [|split].
      * intros (session0 & [= <-] & Hpaid & Href).
        apply andb_false_iff in Hcond as [Hc|Hc];
          apply bool_decide_eq_false in Hc; done.
      * done.
      * intros id doc doc' Hdoc Hdoc' Hflag.
        rewrite Hdoc in Hdoc'. injection Hdoc' as <-. done.
  - split; [|split].
    + by intros (session0 & Hs & _).
    + done.
    + intros id doc doc' Hdoc Hdoc' Hflag.
      rewrite Hdoc in Hdoc'. injection Hdoc' as <-. done.
Qed.

(** *** Leaving the preferences step *)

Lemma truthy_filled (o : option string) : truthy o = true ↔ Spec.filled o.
Proof.
  unfold truthy, Spec.filled. destruct o as [v|].
  - rewrite negb_true_iff, String.eqb_neq. split.
    + intros Hv. by exists v.
    + by intros (v' & [= <-] & Hv).
  - split; [done|]. by intros (v & Hv & _).
Qed.

Lemma demographics_complete_dec (t : TripType) (d : Demographics) :
  Spec.demographics_complete t d ∨ ¬ Spec.demographics_complete t d.
Proof.
  assert (∀ o, Spec.filled o ∨ ¬ Spec.filled o) as Hfilled.
  { intros o. rewrite <- truthy_filled. destruct (truthy o); [by left|by right]. }
  destruct t; simpl; try apply Hfilled.
  destruct (gender d) as [g|].
  - destruct (Hfilled (age d)); [left|right]; [by split; [eexists|]|].
    by intros [_ ?].
  - right. intros [[g Hg] _]. done.
Qed.

Lemma handlePreferencesSubmit_complete (s : AppState) :
  Spec.demographics_complete (tripType (prefs s)) (demographics (prefs s)) →
  handlePreferencesSubmit s = (setStep SPECIFICS s, None).
Proof.
  unfold handlePreferencesSubmit, Spec.demographics_complete.
  destruct (tripType (prefs s)); simpl.
  - intros [[g ->] Hage%truthy_filled]. by rewrite Hage.
  - intros Hage%truthy_filled. by rewrite Hage.
  - intros Hage%truthy_filled. by rewrite Hage.
  - intros Hkids%truthy_filled. by rewrite Hkids.
Qed.

Lemma handlePreferencesSubmit_incomplete (s : AppState) :
  ¬ Spec.demographics_complete (tripType (prefs s)) (demographics (prefs s)) →
  ∃ msg, handlePreferencesSubmit s = (s, Some msg).
Proof.
  unfold handlePreferencesSubmit, Spec.demographics_complete.
  destruct (tripType (prefs s)); simpl; intros Hno.
  - destruct (gender (demographics (prefs s))) as [g|] eqn:Hg; simpl.
    + destruct (truthy (age (demographics (prefs s)))) eqn:Hage; simpl;
        [|by eexists].
      destruct Hno. split; [by eexists|]. by apply truthy_filled.
    + by eexists.
  - destruct (truthy (age (demographics (prefs s)))) eqn:Hage; simpl;
      [|by eexists].
    destruct Hno. by apply truthy_filled.
  - destruct (truthy (age (demographics (prefs s)))) eqn:Hage; simpl;
      [|by eexists].
    destruct Hno. by apply truthy_filled.
  - destruct (truthy (kidsAgeRange (demographics (prefs s)))) eqn:Hk; simpl;
      [|by eexists].
    destruct Hno. by apply truthy_filled.
Qed.

(** C7.  For every trip type, submitting the preferences advances to
    [SPECIFICS] exactly when the demographic fields the type asks for are
    filled in (Solo: gender and age; Couple, Friends: age; Family: the age
    range of the children); otherwise the state, and so the step
    [PREFERENCES], is kept and an alert is raised. *)
Theorem preferences_guard (s : AppState) :
  step s = PREFERENCES →
  let complete :=
    Spec.demographics_complete (tripType (prefs s)) (demographics (prefs s)) in
  let out := handlePreferencesSubmit s in
  (complete → out = (setStep SPECIFICS s, None))
  ∧ (¬ complete → ∃ msg, out = (s, Some msg))
  ∧ (step out.1 = SPECIFICS ↔ complete)
  ∧ (step out.1 = PREFERENCES ∧ is_Some out.2 ↔ ¬ complete).
Proof.
  intros Hstep complete out. subst complete out.
  split; [apply handlePreferencesSubmit_complete|].
  split; [apply handlePreferencesSubmit_incomplete|].
  destruct (demographics_complete_dec (tripType (prefs s))
              (demographics (prefs s))) as [Hc|Hc].
  - rewrite (handlePreferencesSubmit_complete s Hc). simpl. split.
    + done.
    + split; [by intros [? _]|done].
  - destruct (handlePreferencesSubmit_incomplete s Hc) as [msg ->]. simpl.
    rewrite Hstep. split; [split; [done|by intros ?]|].
    split; [done|]. intros _. split; [done|by eexists].
Qed.

Lemma preferences_guard_witness :
  step Sample.solo_no_age = PREFERENCES
  ∧ ∃ msg, handlePreferencesSubmit Sample.solo_no_age
           = (Sample.solo_no_age, Some msg).
Proof.
  split; [reflexivity|].
  apply (preferences_guard Sample.solo_no_age eq_refl).
  intros [_ (v & Hv & _)]. discriminate Hv.
Defined.

(** *** Restart *)

(** C9, as stated, fails: on the itinerary screen of a session with a
    filled-in draft and a cached image, the restart button leaves both in
    place. *)
Lemma restart_keeps_draft_counterexample :
  step Sample.visited = ITINERARY
  ∧ ¬ (step (restart Sample.visited) = START
       ∧ prefs (restart Sample.visited) = initialPrefs
       ∧ dayImages (restart Sample.visited) = ∅).
Proof.
  split; [reflexivity|].
  intros (_ & Hprefs & _).
  apply (f_equal destination) in Hprefs. discriminate Hprefs.
Qed.

(** C9, amended.  The restart button of the itinerary header resets the
    step to [START], so that the itinerary screen is no longer rendered,
    and changes nothing else: the preference draft with its answers, the
    itinerary and the cached day images stay as they were.  The cache is
    replaced only when an itinerary is loaded again. *)
Theorem restart_resets_step_only (s : AppState) :
  step (restart s) = START
  ∧ itineraryView (restart s) = None
  ∧ prefs (restart s) = prefs s
  ∧ dayImages (restart s) = dayImages s
  ∧ itinerary (restart s) = itinerary s
  ∧ regeneratingIds (restart s) = regeneratingIds s
  ∧ (∀ ds existing,
       dayImages (loadImages ds existing (restart s)).1 = existing).
Proof.
  unfold restart. split; [done|]. split.
  - done.
  - by repeat split.
Qed.

(** *** Regeneration and deletion of activities *)

(** C2, as stated, fails: with the key of the first evening slot of day 1
    in the in-flight set, confirming a regeneration of that slot again
    calls the alternative-activity service. *)
Lemma confirmRegeneration_in_flight_counterexample :
  slot_key 1 evening 0 ∈ regeneratingIds Sample.regenerating
  ∧ (∃ t, regenTarget Sample.regenerating = Some t
          ∧ slot_key (rt_dayNum t) (rt_period t) (rt_idx t)
            = slot_key 1 evening 0)
  ∧ ¬ ((confirmRegeneration "" Sample.regenerating).2 = None).
Proof.
  split; [|split].
  - apply (bool_decide_unpack _). vm_compute. exact I.
  - eexists. split; reflexivity.
  - unfold confirmRegeneration. simpl. discriminate.
Qed.

(** C2, amended.  A regeneration confirmed for a slot whose key is already
    in the in-flight set leaves that set as it is, members and size, but
    the request is not rejected: the alternative-activity service is
    called again, for the activity of the target and with the names of all
    activities of the itinerary as exclusions. *)
Theorem confirmRegeneration_in_flight (instruction : string) (s : AppState)
    (t : RegenTarget) :
  regenTarget s = Some t →
  slot_key (rt_dayNum t) (rt_period t) (rt_idx t) ∈ regeneratingIds s →
  let out := confirmRegeneration instruction s in
  regeneratingIds out.1 = regeneratingIds s
  ∧ size (regeneratingIds out.1) = size (regeneratingIds s)
  ∧ ∃ req pd, out.2 = Some (req, pd)
              ∧ p_id pd = slot_key (rt_dayNum t) (rt_period t) (rt_idx t)
              ∧ ar_activity req = rt_activity t
              ∧ ar_existingNames req = existingNames (itinerary s).
Proof.
  intros Htarget Hin. unfold confirmRegeneration. rewrite Htarget. simpl.
  assert ({[slot_key (rt_dayNum t) (rt_period t) (rt_idx t)]}
            ∪ regeneratingIds s = regeneratingIds s) as ->
    by (by apply subseteq_union_1_L, singleton_subseteq_l).
  split; [done|]. split; [done|]. by do 2 eexists.
Qed.

Lemma confirmRegeneration_in_flight_witness :
  size (regeneratingIds (confirmRegeneration "" Sample.regenerating).1)
  = size (regeneratingIds Sample.regenerating).
Proof.
  refine (proj1 (proj2 (confirmRegeneration_in_flight "" Sample.regenerating
                   _ eq_refl _))).
  apply (bool_decide_unpack _). vm_compute. exact I.
Defined.

(** C6.  A confirmed regeneration puts the key of its slot into the
    in-flight set, and whatever state the answer arrives in and however the
    call settles (a new activity, written or dropped; null; a rejected
    promise), the key is out of the set afterwards. *)
Theorem regeneration_key_released (instruction : string) (s : AppState)
    (t : RegenTarget) :
  regenTarget s = Some t →
  ∃ req pd,
    (confirmRegeneration instruction s).2 = Some (req, pd)
    ∧ p_id pd = slot_key (rt_dayNum t) (rt_period t) (rt_idx t)
    ∧ p_id pd ∈ regeneratingIds (confirmRegeneration instruction s).1
    ∧ ∀ (s' : AppState) (o : Outcome),
        (p_id pd ∉ regeneratingIds (regenerationDone pd o s'))
        ∧ (∀ id, id ≠ p_id pd →
                 (id ∈ regeneratingIds (regenerationDone pd o s')
                  ↔ id ∈ regeneratingIds s')).
Proof.
  intros Htarget. unfold confirmRegeneration. rewrite Htarget. simpl.
  do 2 eexists. split; [done|]. simpl. split; [done|].
  split; [apply elem_of_union_l, elem_of_singleton; done|].
  intros s' o. unfold regenerationDone.
  assert (∀ ids : gset string,
            (slot_key (rt_dayNum t) (rt_period t) (rt_idx t)
               ∉ (ids ∖ {[slot_key (rt_dayNum t) (rt_period t) (rt_idx t)]}))
            ∧ ∀ id, id ≠ slot_key (rt_dayNum t) (rt_period t) (rt_idx t) →
                    (id ∈ ids ∖ {[slot_key (rt_dayNum t) (rt_period t) (rt_idx t)]}
                     ↔ id ∈ ids)) as Hrelease.
  { intros ids. split.
    - rewrite elem_of_difference, elem_of_singleton. by intros [_ ?].
    - intros id Hid. rewrite elem_of_difference, elem_of_singleton.
      split; [by intros [? _]|done]. }
  destruct o as [[a|]|]; simpl; apply Hrelease.
Qed.

Lemma regeneration_key_released_witness :
  ∃ req pd,
    (confirmRegeneration "" Sample.regenerating).2 = Some (req, pd)
    ∧ p_id pd = "1-evening-0".
Proof.
  destruct (regeneration_key_released "" Sample.regenerating _ eq_refl)
    as (req & pd & Hcall & Hid & _).
  exists req, pd. split; [exact Hcall|]. rewrite Hid. vm_compute. reflexivity.
Defined.

Lemma set_period_same (p : Period) (d : DayPlan) :
  set_period p (period_of p d) d = d.
Proof. by destruct p, d. Qed.

Lemma period_of_set_period (p q : Period) (l : list Activity) (d : DayPlan) :
  period_of q (set_period p l d) = if decide (q = p) then l else period_of q d.
Proof. by destruct p, q. Qed.

Lemma dayNumber_set_period (p : Period) (l : list Activity) (d : DayPlan) :
  dayNumber (set_period p l d) = dayNumber d.
Proof. by destruct p. Qed.

Lemma set_period_twice (p : Period) (l l' : list Activity) (d : DayPlan) :
  set_period p l (set_period p l' d) = set_period p l d.
Proof. by destruct p. Qed.

Lemma replace_at_length (idx : nat) (a : Activity) (l : list Activity) :
  length (replace_at idx a l) = length l.
Proof.
  unfold replace_at. destruct (l !! idx); [apply length_insert|done].
Qed.

Lemma replace_at_other (idx j : nat) (a : Activity) (l : list Activity) :
  j ≠ idx → replace_at idx a l !! j = l !! j.
Proof.
  intros Hj. unfold replace_at.
  destruct (l !! idx); [by apply list_lookup_insert_ne|done].
Qed.

Lemma replace_at_target (idx : nat) (a : Activity) (l : list Activity) :
  (idx < length l)%nat → replace_at idx a l !! idx = Some a.
Proof.
  intros Hlt. unfold replace_at.
  destruct (lookup_lt_is_Some_2 l idx Hlt) as [x ->].
  by apply list_lookup_insert_eq.
Qed.

Lemma replace_at_dropped (idx : nat) (a : Activity) (l : list Activity) :
  (length l ≤ idx)%nat → replace_at idx a l = l.
Proof.
  intros Hge. unfold replace_at. by rewrite (lookup_ge_None_2 l idx Hge).
Qed.

Lemma fmap_fixed {A} (f : A → A) (l : list A) :
  (∀ x, x ∈ l → f x = x) → f <$> l = l.
Proof.
  induction l as [|x l IH]; intros Hfix; [done|]. simpl.
  rewrite (Hfix x) by apply list_elem_of_here.
  f_equal. apply IH. intros y Hy. apply Hfix. by apply list_elem_of_further.
Qed.

(** C5.  When a regeneration succeeds, in whatever state the itinerary is
    by then, the new activity takes exactly the list position
    [(dayNumber, period, index)]: the number of days, every day with
    another number, the other two periods and all other fields of a target
    day, the length of the target list and all its other positions stay as
    they are.  A target index beyond the end of the list, or a day number
    no day has, leaves the itinerary as a whole unchanged. *)
Theorem regeneration_replaces_one_slot (pd : Pending) (a : Activity)
    (s : AppState) (it : Itinerary) :
  itinerary s = Some it →
  let period := p_period pd in
  ∃ it',
    itinerary (regenerationDone pd (Resolved (Some a)) s) = Some it'
    ∧ planDestination it' = planDestination it
    ∧ length (days it') = length (days it)
    ∧ (∀ k d, days it !! k = Some d →
         ∃ d', days it' !! k = Some d'
           ∧ (dayNumber d ≠ p_dayNum pd → d' = d)
           ∧ (dayNumber d = p_dayNum pd →
                d' = set_period period (period_of period d') d
                ∧ (∀ q, q ≠ period → period_of q d' = period_of q d)
                ∧ length (period_of period d') = length (period_of period d)
                ∧ (∀ j, j ≠ p_idx pd →
                        period_of period d' !! j = period_of period d !! j)
                ∧ ((p_idx pd < length (period_of period d))%nat →
                     period_of period d' !! p_idx pd = Some a)
                ∧ ((length (period_of period d) ≤ p_idx pd)%nat → d' = d)))
    ∧ ((∀ d, d ∈ days it → dayNumber d ≠ p_dayNum pd) → it' = it)
    ∧ ((∀ d, d ∈ days it → dayNumber d = p_dayNum pd →
             (length (period_of period d) ≤ p_idx pd)%nat) → it' = it).
Proof.
  intros Hit period. unfold regenerationDone. simpl. rewrite Hit. simpl.
  eexists. split; [done|]. simpl. split; [done|].
  split; [by rewrite length_fmap|]. split; [|split].
  - intros k d Hk. rewrite list_lookup_fmap, Hk. simpl.
    eexists. split; [done|]. split.
    + intros Hne. by rewrite bool_decide_eq_true_2.
    + intros Heq. rewrite bool_decide_eq_false_2 by (by intros ?).
      fold period. rewrite !period_of_set_period.
      rewrite decide_True by done. split; [done|]. split.
      { intros q Hq. rewrite period_of_set_period. by rewrite decide_False. }
      split; [apply replace_at_length|].
      split; [intros j Hj; by apply replace_at_other|].
      split; [apply replace_at_target|].
      intros Hge. rewrite replace_at_dropped by done. apply set_period_same.
  - intros Hnone. destruct it as [dest ds]. unfold set_days. simpl in *.
    f_equal. apply fmap_fixed. intros d Hd.
    rewrite bool_decide_eq_true_2; [done|by apply Hnone].
  - intros Hout. destruct it as [dest ds]. unfold set_days. simpl in *.
    f_equal. apply fmap_fixed. intros d Hd.
    destruct (decide (dayNumber d = p_dayNum pd)) as [Heq|Hne].
    + rewrite bool_decide_eq_false_2 by (by intros ?).
      rewrite replace_at_dropped by (by apply Hout). apply set_period_same.
    + by rewrite bool_decide_eq_true_2.
Qed.

Lemma regeneration_replaces_one_slot_witness :
  ∃ it',
    itinerary
      (regenerationDone
         {| p_dayNum := 1; p_period := evening; p_idx := 0;
            p_id := "1-evening-0" |}
         (Resolved (Some Sample.market)) Sample.locked_screen) = Some it'
    ∧ length (days it') = 2%nat.
Proof.
  destruct (regeneration_replaces_one_slot
              {| p_dayNum := 1; p_period := evening; p_idx := 0;
                 p_id := "1-evening-0" |}
              Sample.market Sample.locked_screen _ eq_refl)
    as (it' & Hit' & _ & Hlen & _).
  exists it'. split; [exact Hit'|]. rewrite Hlen. reflexivity.
Defined.

(** The race of section 4.4 on the evening of day 1, [fado; bar]: index 0
    is deleted while regenerations of indices 0 and 1 are in flight.  The
    first then overwrites what has become index 0, the second is dropped. *)
Example delete_during_regeneration :
  let pd0 := {| p_dayNum := 1; p_period := evening; p_idx := 0%nat;
                p_id := slot_key 1 evening 0 |} in
  let pd1 := {| p_dayNum := 1; p_period := evening; p_idx := 1%nat;
                p_id := slot_key 1 evening 1 |} in
  let s1 := handleDeleteActivity 1 evening 0 Sample.locked_screen in
  let s2 := regenerationDone pd0 (Resolved (Some Sample.market)) s1 in
  let s3 := regenerationDone pd1 (Resolved (Some Sample.tower)) s2 in
  ((λ p, dayEvening <$> days p) <$> itinerary s1)
  = Some [[Sample.bar]; [Sample.fado]]
  ∧ ((λ p, dayEvening <$> days p) <$> itinerary s2)
    = Some [[Sample.market]; [Sample.fado]]
  ∧ itinerary s3 = itinerary s2.
Proof. vm_compute. done. Qed.

(** *** The image cache *)

Lemma mergeDayImage_comm (k k' : Z) (i i' : string) (cache : gmap Z string) :
  k ≠ k' →
  mergeDayImage k i (mergeDayImage k' i' cache)
  = mergeDayImage k' i' (mergeDayImage k i cache).
Proof. intros Hne. unfold mergeDayImage. by apply insert_insert_ne. Qed.

Lemma mergeDayImage_idem (k : Z) (i : string) (cache : gmap Z string) :
  mergeDayImage k i (mergeDayImage k i cache) = mergeDayImage k i cache.
Proof. unfold mergeDayImage. apply insert_insert_eq. Qed.

Lemma imagesDone_snoc (cs : list (Z * option string)) (c : Z * option string)
    (s : AppState) :
  imagesDone (cs ++ [c])%list s = imageDone c.1 c.2 (imagesDone cs s).
Proof. unfold imagesDone. by rewrite foldl_snoc. Qed.

Lemma truthy_Some (i : option string) :
  truthy i = true → ∃ v, i = Some v ∧ v ≠ "".
Proof. apply truthy_filled. Qed.

(** What the cache holds for day [k] after the completions [cs]: an image
    delivered for [k], or, if none was, what it held before. *)
Lemma imagesDone_lookup (cs : list (Z * option string)) (s : AppState) (k : Z) :
  (∃ v, (k, Some v) ∈ cs ∧ v ≠ ""
        ∧ dayImages (imagesDone cs s) !! k = Some v)
  ∨ ((∀ i, (k, i) ∈ cs → truthy i = false)
     ∧ dayImages (imagesDone cs s) !! k = dayImages s !! k).
Proof.
  induction cs as [|[k' img] cs IH] using rev_ind.
  - right. split; [|done]. intros i Hi. by apply elem_of_nil in Hi.
  - rewrite imagesDone_snoc. unfold imageDone. simpl.
    destruct (truthy img) eqn:Himg.
    + destruct (truthy_Some img Himg) as (v & -> & Hv). simpl.
      unfold mergeDayImage.
      destruct (decide (k' = k)) as [->|Hne].
      * left. exists v. rewrite lookup_insert_eq.
        split; [|done]. apply elem_of_app. right. apply list_elem_of_here.
      * rewrite lookup_insert_ne by done.
        destruct IH as [(w & Hw & Hne' & Hlook)|[Hnone Hlook]].
        -- left. exists w. split; [|done]. apply elem_of_app. by left.
        -- right. split; [|done]. intros i [Hi|Hi]%elem_of_app; [by apply Hnone|].
           apply list_elem_of_singleton in Hi. congruence.
    + destruct IH as [(w & Hw & Hne' & Hlook)|[Hnone Hlook]].
      * left. exists w. split; [|done]. apply elem_of_app. by left.
      * right. split; [|done]. intros i [Hi|Hi]%elem_of_app; [by apply Hnone|].
        apply list_elem_of_singleton in Hi. congruence.
Qed.

(** Two runs of completions that deliver the same pairs end in the same
    cache, provided a day number comes with one image only. *)
Lemma imagesDone_same_pairs (cs cs' : list (Z * option string))
    (s : AppState) :
  Spec.agree_per_day cs →
  (∀ c, c ∈ cs' ↔ c ∈ cs) →
  dayImages (imagesDone cs' s) = dayImages (imagesDone cs s).
Proof.
  intros Hagree Hsame. apply map_eq. intros k.
  destruct (imagesDone_lookup cs s k) as [(v & Hv & Hne & ->)|[Hnone ->]];
    destruct (imagesDone_lookup cs' s k) as [(v' & Hv' & Hne' & ->)|[Hnone' ->]].
  - apply Hsame in Hv'.
    assert (Some v' = Some v) as Heq; [|done].
    apply (Hagree k); try done; simpl;
      by rewrite negb_true_iff, String.eqb_neq.
  - apply Hsame, Hnone' in Hv. simpl in Hv.
    by rewrite negb_false_iff, String.eqb_eq in Hv.
  - apply Hsame, Hnone in Hv'. simpl in Hv'.
    by rewrite negb_false_iff, String.eqb_eq in Hv'.
  - done.
Qed.

Lemma agree_per_day_NoDup (cs : list (Z * option string)) :
  NoDup cs.*1 → Spec.agree_per_day cs.
Proof.
  intros Hnodup k i i' Hi Hi' _ _.
  apply list_elem_of_lookup in Hi as [n Hn], Hi' as [n' Hn'].
  assert (n = n') as <-.
  { apply (NoDup_lookup cs.*1 n n' k); [done|..];
      rewrite list_lookup_fmap; [by rewrite Hn|by rewrite Hn']. }
  congruence.
Qed.

(** C8.  Merging day images into the cache is commutative and idempotent
    per key: when every day number comes with one image, the completions
    of the image tasks end in the same cache in whatever order they
    arrive, a completion that arrives once more changes nothing, and so do
    any two runs that deliver the same (day, image) pairs. *)
Theorem image_cache_order_independent (cs : list (Z * option string))
    (s : AppState) :
  Spec.agree_per_day cs →
  (∀ cs', cs' ≡ₚ cs →
          dayImages (imagesDone cs' s) = dayImages (imagesDone cs s))
  ∧ (∀ c, c ∈ cs →
          dayImages (imagesDone (cs ++ [c])%list s)
          = dayImages (imagesDone cs s))
  ∧ (∀ cs', (∀ c, c ∈ cs' ↔ c ∈ cs) →
            dayImages (imagesDone cs' s) = dayImages (imagesDone cs s)).
Proof.
  intros Hagree. split; [|split].
  - intros cs' Hperm. apply imagesDone_same_pairs; [done|].
    intros c. by rewrite Hperm.
  - intros c Hc. apply imagesDone_same_pairs; [done|].
    intros c'. rewrite elem_of_app, list_elem_of_singleton.
    split; [intros [?| ->]; done|by left].
  - intros cs'. by apply imagesDone_same_pairs.
Qed.

Lemma image_cache_order_independent_witness :
  dayImages
    (imagesDone [(3, Some "c"); (1, Some "a"); (2, Some "b")]
       Sample.locked_screen)
  = dayImages
      (imagesDone [(1, Some "a"); (2, Some "b"); (3, Some "c")]
         Sample.locked_screen).
Proof.
  refine (proj1 (image_cache_order_independent
                   [(1, Some "a"); (2, Some "b"); (3, Some "c")]
                   Sample.locked_screen _) _ _).
  - apply agree_per_day_NoDup, (bool_decide_unpack _). vm_compute. exact I.
  - apply (bool_decide_unpack _). vm_compute. exact I.
Defined.

(** *** The swipe card *)

Lemma handleSwipeComplete_commit (d : Direction) (s : AppState)
    (q : SmartQuestion) :
  isAnimatingOut s = None →
  smartQuestions s !! currentQuestionIndex s = Some q →
  ∃ s' c,
    handleSwipeComplete d s = (s', Some c)
    ∧ c_question c = q ∧ c_answer c = direction_answer d
    ∧ c_timer c = {| t_index := currentQuestionIndex s;
                     t_questions := smartQuestions s; t_prefs := prefs s |}
    ∧ followUpAnswers (prefs s')
      = <[q_id q := direction_answer d]> (followUpAnswers (prefs s))
    ∧ isAnimatingOut s' = Some d
    ∧ step s' = step s
    ∧ smartQuestions s' = smartQuestions s
    ∧ currentQuestionIndex s' = currentQuestionIndex s.
Proof.
  intros Hanim Hq. unfold handleSwipeComplete. rewrite Hanim, Hq.
  do 2 eexists. split; [done|]. by repeat split.
Qed.

(** C3.  Releasing a drag on the active card classifies the horizontal
    delta against the threshold of 100: above it the answer [true] is
    committed for the active question, below its negative the answer
    [false], and in between, both bounds included, nothing is committed,
    the answers are untouched and the delta is reset to zero.  A delta of
    exactly the threshold cancels; the threshold plus one commits. *)
Theorem onPointerUp_classifies (s : AppState) (start : Z * Z)
    (q : SmartQuestion) :
  dragStart s = Some start →
  isAnimatingOut s = None →
  smartQuestions s !! currentQuestionIndex s = Some q →
  let dx := (dragDelta s).1 in
  let out := onPointerUp s in
  (threshold < dx →
     (∃ c, out.2 = Some c ∧ c_question c = q ∧ c_answer c = true)
     ∧ followUpAnswers (prefs out.1)
       = <[q_id q := true]> (followUpAnswers (prefs s)))
  ∧ (dx < - threshold →
     (∃ c, out.2 = Some c ∧ c_question c = q ∧ c_answer c = false)
     ∧ followUpAnswers (prefs out.1)
       = <[q_id q := false]> (followUpAnswers (prefs s)))
  ∧ (- threshold ≤ dx ≤ threshold →
     out.2 = None
     ∧ out.1 = setDragStart None (setDragDelta (0, 0) s)
     ∧ prefs out.1 = prefs s
     ∧ dragDelta out.1 = (0, 0)
     ∧ currentQuestionIndex out.1 = currentQuestionIndex s
     ∧ step out.1 = step s)
  ∧ (dx = threshold → out.2 = None ∧ prefs out.1 = prefs s)
  ∧ (dx = threshold + 1 → ∃ c, out.2 = Some c ∧ c_answer c = true).
Proof.
  intros Hstart Hanim Hq dx out.
  assert (threshold < dx →
          (∃ c, out.2 = Some c ∧ c_question c = q ∧ c_answer c = true)
          ∧ followUpAnswers (prefs out.1)
            = <[q_id q := true]> (followUpAnswers (prefs s))) as Hyes.
  { intros Hdx. subst out dx. unfold onPointerUp.
    rewrite Hstart, Hanim, bool_decide_eq_true_2 by done.
    destruct (handleSwipeComplete_commit right s q Hanim Hq)
      as (s' & c & -> & Hcq & Hca & _ & Hans & _). simpl.
    split; [by exists c|done]. }
  split; [exact Hyes|]. split; [|split; [|split]].
  - intros Hdx. subst out dx. unfold onPointerUp.
    rewrite Hstart, Hanim, bool_decide_eq_false_2 by (unfold threshold in *; lia).
    rewrite bool_decide_eq_true_2 by done.
    destruct (handleSwipeComplete_commit left s q Hanim Hq)
      as (s' & c & -> & Hcq & Hca & _ & Hans & _). simpl.
    split; [by exists c|done].
  - intros Hdx. subst out dx. unfold onPointerUp.
    rewrite Hstart, Hanim, !bool_decide_eq_false_2 by lia. done.
  - intros Hdx. subst out dx. unfold onPointerUp.
    rewrite Hstart, Hanim, !bool_decide_eq_false_2
      by (unfold threshold in *; lia). done.
  - intros Hdx. destruct Hyes as [(c & Hc & _ & Hca) _]; [lia|]. by exists c.
Qed.

Lemma onPointerUp_classifies_witness :
  (onPointerUp
     (onPointerMove 100 3 (onPointerDown 0 0 Sample.asking))).2 = None
  ∧ ∃ c, (onPointerUp
            (onPointerMove 101 3 (onPointerDown 0 0 Sample.asking))).2 = Some c
         ∧ c_answer c = true.
Proof.
  split.
  - refine (proj1 (proj1 (proj2 (proj2 (proj2
              (onPointerUp_classifies
                 (onPointerMove 100 3 (onPointerDown 0 0 Sample.asking))
                 (0, 0) Sample.q_fado eq_refl eq_refl eq_refl)))) eq_refl)).
  - refine (proj2 (proj2 (proj2 (proj2
              (onPointerUp_classifies
                 (onPointerMove 101 3 (onPointerDown 0 0 Sample.asking))
                 (0, 0) Sample.q_fado eq_refl eq_refl eq_refl)))) eq_refl).
Defined.

(** *** The traversal of the questions *)

Lemma answer_one_step (d : Direction) (s : AppState) (q : SmartQuestion) :
  isAnimatingOut s = None →
  smartQuestions s !! currentQuestionIndex s = Some q →
  let last :=
    bool_decide (length (smartQuestions s) ≤ currentQuestionIndex s + 1)%nat in
  ∃ s',
    answer_one d s
    = (s', [(q_id q, direction_answer d)],
       if last then Some (prefs s) else None)
    ∧ followUpAnswers (prefs s')
      = <[q_id q := direction_answer d]> (followUpAnswers (prefs s))
    ∧ isAnimatingOut s' = None
    ∧ smartQuestions s' = smartQuestions s
    ∧ step s' = (if last then LOADING else step s)
    ∧ currentQuestionIndex s'
      = (if last then currentQuestionIndex s else S (currentQuestionIndex s)).
Proof.
  intros Hanim Hq last. unfold answer_one.
  destruct (handleSwipeComplete_commit d s q Hanim Hq)
    as (s1 & c & -> & Hcq & Hca & Htimer & Hans & _ & Hstep & Hqs & Hidx).
  rewrite Htimer, Hcq, Hca. unfold swipeTimeout. simpl. fold last.
  destruct last; simpl; eexists; (split; [done|]); simpl;
    repeat split; try done.
  by rewrite Nat.add_1_r.
Qed.

Lemma answers_of_nil (qs : list SmartQuestion) : Spec.answers_of qs [] = [].
Proof. unfold Spec.answers_of. simpl. apply zip_with_nil_r. Qed.

Lemma answers_of_cons (q : SmartQuestion) (qs : list SmartQuestion)
    (d : Direction) (ds : list Direction) :
  Spec.answers_of (q :: qs) (d :: ds)
  = (q_id q, direction_answer d) :: Spec.answers_of qs ds.
Proof. done. Qed.

Lemma answer_all_run (ds : list Direction) (s : AppState) :
  isAnimatingOut s = None →
  step s = QUESTIONS →
  (currentQuestionIndex s + length ds ≤ length (smartQuestions s))%nat →
  let ws :=
    Spec.answers_of (drop (currentQuestionIndex s) (smartQuestions s)) ds in
  ∃ s' req,
    answer_all ds s = (s', ws, req)
    ∧ followUpAnswers (prefs s') = Spec.write_all ws (followUpAnswers (prefs s))
    ∧ smartQuestions s' = smartQuestions s
    ∧ ((currentQuestionIndex s + length ds < length (smartQuestions s))%nat
       ∨ ds = [] →
       step s' = QUESTIONS ∧ isAnimatingOut s' = None ∧ req = None
       ∧ currentQuestionIndex s' = (currentQuestionIndex s + length ds)%nat)
    ∧ ((currentQuestionIndex s + length ds = length (smartQuestions s))%nat →
       ds ≠ [] → step s' = LOADING ∧ is_Some req).
Proof.
  revert s. induction ds as [|d ds IH]; intros s Hanim Hstep Hlen ws.
  - subst ws. exists s, None. simpl. rewrite answers_of_nil.
    repeat split; try done.
  - simpl in Hlen.
    destruct (lookup_lt_is_Some_2 (smartQuestions s) (currentQuestionIndex s))
      as [q Hq]; [lia|].
    destruct (answer_one_step d s q Hanim Hq)
      as (s1 & Hone & Hans1 & Hanim1 & Hqs1 & Hstep1 & Hidx1).
    assert (ws = (q_id q, direction_answer d)
                   :: Spec.answers_of
                        (drop (S (currentQuestionIndex s)) (smartQuestions s)) ds)
      as Hws.
    { subst ws. by rewrite (drop_S _ _ _ Hq), answers_of_cons. }
    simpl. rewrite Hone. clear Hone.
    destruct (bool_decide
                (length (smartQuestions s) ≤ currentQuestionIndex s + 1)%nat)
      eqn:Hlast.
    + apply bool_decide_eq_true in Hlast.
      assert (ds = []) as -> by (destruct ds; [done|simpl in Hlen; lia]).
      simpl. exists s1, (Some (prefs s)). rewrite Hws, answers_of_nil. simpl.
      split; [done|]. split; [by rewrite Hans1|]. split; [done|].
      split; [|done]. intros [Hlt|Hnil]; [simpl in Hlt; lia|done].
    + apply bool_decide_eq_false in Hlast.
      destruct (IH s1) as (s2 & req & Hall & Hans2 & Hqs2 & Hmid & Hend);
        [done|by rewrite Hstep1| rewrite Hidx1, Hqs1; lia |].
      rewrite Hidx1, Hqs1 in Hall, Hans2, Hmid, Hend. rewrite Hall. simpl.
      exists s2, req. rewrite Hws. split; [done|].
      split; [by rewrite Hans2, Hans1|]. split; [congruence|]. split.
      * intros [Hlt|Hnil]; [|done].
        destruct Hmid as (? & ? & ? & ->); [left; simpl in Hlt; lia|].
        repeat split; try done. simpl. lia.
      * intros Heq _. apply Hend; [simpl in Heq; lia|].
        intros ->. simpl in Heq. lia.
Qed.

Lemma write_all_dom (ws : list (string * bool)) (m : gmap string bool) :
  dom (Spec.write_all ws m) = dom m ∪ list_to_set ws.*1.
Proof.
  revert m. induction ws as [|[k v] ws IH]; intros m.
  - simpl. by rewrite (right_id_L ∅ (∪)).
  - change (Spec.write_all ((k, v) :: ws) m)
      with (Spec.write_all ws (<[k := v]> m)).
    rewrite IH, dom_insert_L. simpl.
    by rewrite (comm_L (∪) {[k]} (dom m)), <- (assoc_L (∪)).
Qed.

Lemma write_all_absent (ws : list (string * bool)) (m : gmap string bool)
    (k : string) :
  k ∉ ws.*1 → Spec.write_all ws m !! k = m !! k.
Proof.
  revert m. induction ws as [|[k' v] ws IH]; intros m Hk; [done|].
  simpl in Hk. apply not_elem_of_cons in Hk as [Hne Hk].
  change (Spec.write_all ((k', v) :: ws) m)
    with (Spec.write_all ws (<[k' := v]> m)).
  rewrite IH by done. by apply lookup_insert_ne.
Qed.

Lemma write_all_present (ws : list (string * bool)) (m : gmap string bool)
    (k : string) (v : bool) :
  NoDup ws.*1 → (k, v) ∈ ws → Spec.write_all ws m !! k = Some v.
Proof.
  revert m. induction ws as [|[k' v'] ws IH]; intros m Hnd Hin.
  - by apply elem_of_nil in Hin.
  - simpl in Hnd. apply NoDup_cons in Hnd as [Hfresh Hnd].
    apply elem_of_cons in Hin as [[= -> ->]|Hin].
    + change (Spec.write_all ((k', v') :: ws) m)
        with (Spec.write_all ws (<[k' := v']> m)).
      rewrite write_all_absent by done. apply lookup_insert_eq.
    + change (Spec.write_all ((k', v') :: ws) m)
        with (Spec.write_all ws (<[k' := v']> m)).
      by apply IH.
Qed.

(** The questions screen as [handleSpecificsSubmit] opens it is the start
    of a traversal. *)
Lemma questionsReceived_start (captured : UserPreferences)
    (questions : list SmartQuestion) (s : AppState) :
  questions ≠ [] →
  let s' := (questionsReceived captured questions s).1 in
  step s' = QUESTIONS ∧ smartQuestions s' = questions
  ∧ currentQuestionIndex s' = 0%nat
  ∧ isAnimatingOut s' = isAnimatingOut s
  ∧ prefs s' = prefs s.
Proof. by destruct questions. Qed.

(** C4.  Answering the received questions one after the other, from the
    first, writes one answer per question, in the order received: before
    answer [k] the active question is question [k], the answers written
    are those of the questions in sequence, the map ends with an entry for
    every received id (and, starting from an empty map, for no other id),
    each holding the answer given when the ids are distinct, and the timer
    of the last answer moves the step to [LOADING] and requests the
    itinerary; until then the step stays [QUESTIONS]. *)
Theorem questions_traversal (s : AppState) (ds : list Direction) :
  step s = QUESTIONS →
  smartQuestions s ≠ [] →
  currentQuestionIndex s = 0%nat →
  isAnimatingOut s = None →
  length ds = length (smartQuestions s) →
  let qs := smartQuestions s in
  let out := answer_all ds s in
  let answers := followUpAnswers (prefs out.1.1) in
  out.1.2 = Spec.answers_of qs ds
  ∧ out.1.2.*1 = q_id <$> qs
  ∧ answers = Spec.write_all (Spec.answers_of qs ds) (followUpAnswers (prefs s))
  ∧ dom answers = dom (followUpAnswers (prefs s)) ∪ list_to_set (q_id <$> qs)
  ∧ (followUpAnswers (prefs s) = ∅ → dom answers = list_to_set (q_id <$> qs))
  ∧ (∀ q, q ∈ qs → is_Some (answers !! q_id q))
  ∧ (NoDup (q_id <$> qs) →
     ∀ k q d, qs !! k = Some q → ds !! k = Some d →
              answers !! q_id q = Some (direction_answer d))
  ∧ step out.1.1 = LOADING
  ∧ is_Some out.2
  ∧ (∀ k, (k < length qs)%nat →
          let mid := answer_all (take k ds) s in
          step mid.1.1 = QUESTIONS
          ∧ currentQuestionIndex mid.1.1 = k
          ∧ smartQuestions mid.1.1 = qs
          ∧ mid.2 = None).
Proof.
  intros Hstep Hne Hidx Hanim Hlen qs out answers. subst qs.
  destruct (answer_all_run ds s Hanim Hstep) as
    (s' & req & Hall & Hans & Hqs & _ & Hend); [rewrite Hidx; simpl; lia|].
  rewrite Hidx in Hall, Hans, Hend. simpl in Hall, Hans, Hend.
  rewrite drop_0 in Hall, Hans.
  destruct Hend as [Hloading Hreq];
    [done|intros ->; by destruct (smartQuestions s)|].
  assert ((Spec.answers_of (smartQuestions s) ds).*1
          = q_id <$> smartQuestions s) as Hkeys.
  { unfold Spec.answers_of. apply fst_zip. rewrite !length_fmap. lia. }
  assert (answers
          = Spec.write_all (Spec.answers_of (smartQuestions s) ds)
              (followUpAnswers (prefs s))) as Hanswers
    by (subst answers out; by rewrite Hall).
  clearbody answers.
  assert (dom answers
          = dom (followUpAnswers (prefs s))
              ∪ list_to_set (q_id <$> smartQuestions s)) as Hdom
    by (by rewrite Hanswers, write_all_dom, Hkeys).
  subst out. rewrite Hall. simpl.
  split; [done|]. split; [done|]. split; [done|]. split; [exact Hdom|].
  split.
  { intros Hempty. rewrite Hdom, Hempty, dom_empty_L.
    apply (left_id_L ∅ (∪)). }
  split.
  { intros q Hq. apply elem_of_dom. rewrite Hdom.
    apply elem_of_union_r, elem_of_list_to_set, list_elem_of_fmap.
    by exists q. }
  split.
  { intros Hnd k q d Hq Hd. rewrite Hanswers.
    apply write_all_present; [by rewrite Hkeys|].
    unfold Spec.answers_of. apply list_elem_of_lookup. exists k.
    rewrite lookup_zip_with, !list_lookup_fmap, Hq, Hd. done. }
  split; [done|]. split; [done|].
  intros k Hk.
  destruct (answer_all_run (take k ds) s Hanim Hstep) as
    (s2 & req2 & Hall2 & _ & Hqs2 & Hmid & _);
    [rewrite Hidx, length_take; simpl; lia|].
  rewrite Hall2. simpl.
  destruct Hmid as (? & ? & ? & Hidx2);
    [left; rewrite Hidx, length_take; simpl; lia|].
  rewrite Hidx, length_take in Hidx2. simpl in Hidx2.
  repeat split; try done. lia.
Qed.

Lemma questions_traversal_witness :
  (answer_all [right; left] Sample.asking).1.2
  = [("fado_show", true); ("surf_lesson", false)]
  ∧ step (answer_all [right; left] Sample.asking).1.1 = LOADING.
Proof.
  destruct (questions_traversal Sample.asking [right; left]
              eq_refl ltac:(discriminate) eq_refl eq_refl eq_refl)
    as (Hlog & _ & _ & _ & _ & _ & _ & Hstep & _).
  split; [exact Hlog|exact Hstep].
Defined.

(** ** Further properties of the server *)

(** X1.  Masking a plan answers the same plan with exactly its first two
    days, in their order, and everything else as it was; a plan of at most
    two days is answered unchanged, and so is null.  Masking twice is
    masking once. *)
Theorem maskPlan_prefix (plan : PlanJson) :
  maskPlan (maskPlan plan) = maskPlan plan
  ∧ maskPlan PlanNull = PlanNull
  ∧ (∀ p, plan = PlanDays p →
       ∃ p', maskPlan plan = PlanDays p'
             ∧ planDestination p' = planDestination p
             ∧ days p' = take 2 (days p)
             ∧ days p' `prefix_of` days p
             ∧ length (days p') = (2 `min` length (days p))%nat
             ∧ ((length (days p) ≤ 2)%nat → maskPlan plan = plan)).
Proof.
  destruct plan as [p|]; simpl.
  - split; [|split].
    + unfold set_days. simpl. by rewrite take_take.
    + done.
    + intros p' [= <-]. eexists. split; [done|]. simpl.
      split; [done|]. split; [done|]. split; [apply prefix_take|].
      split; [by rewrite length_take|].
      intros Hshort. destruct p as [dest ds]. unfold set_days. simpl in *.
      by rewrite take_ge.
  - split; [done|]. split; [done|]. by intros p.
Qed.

Lemma get_itinerary_lookup (db : Db) (id : string) (doc : Doc) :
  db !! id = Some doc →
  get_itinerary db id
  = Some {| r_id := doc_id doc; r_unlocked := doc_unlocked doc;
            r_plan := if doc_unlocked doc then doc_plan doc
                      else maskPlan (doc_plan doc);
            r_totalDays := plan_days_length (doc_plan doc);
            r_images := doc_images doc |}.
Proof.
  intros Hdoc. unfold get_itinerary. rewrite Hdoc.
  by destruct (doc_unlocked doc), (doc_plan doc).
Qed.

(** X2.  A plan generated under a fresh id is stored in full and locked,
    and looking the id up afterwards answers exactly what the generating
    route answered; no other document is touched. *)
Theorem generate_then_get (plan : Itinerary) (id : string) (db : Db) :
  db !! id = None →
  let out := generate_trip (Some plan) id db in
  out.2 = Some (generate_trip_response id plan)
  ∧ get_itinerary out.1 id = out.2
  ∧ out.1 !! id = Some (new_doc id plan)
  ∧ (∀ id', id' ≠ id → out.1 !! id' = db !! id'
                       ∧ get_itinerary out.1 id' = get_itinerary db id').
Proof.
  intros Hfresh. unfold generate_trip. rewrite Hfresh. simpl.
  split; [done|]. split.
  - by rewrite (get_itinerary_lookup _ _ (new_doc id plan))
      by apply lookup_insert_eq.
  - split; [apply lookup_insert_eq|].
    intros id' Hne. unfold get_itinerary.
    by rewrite lookup_insert_ne.
Qed.

(** X3.  An image saved for a day of a stored itinerary is what the lookup
    route answers for that day afterwards; the plan, the lock and the
    other images of the itinerary and all other itineraries are
    unchanged.  For an unknown id nothing is stored. *)
Theorem save_image_get (db : Db) (id : string) (k : Z) (img : string) :
  (∀ r, get_itinerary db id = Some r →
     ∃ r', get_itinerary (save_image id k img db) id = Some r'
           ∧ r_images r' !! k = Some img
           ∧ (∀ k', k' ≠ k → r_images r' !! k' = r_images r !! k')
           ∧ r_plan r' = r_plan r ∧ r_unlocked r' = r_unlocked r
           ∧ r_totalDays r' = r_totalDays r ∧ r_id r' = r_id r)
  ∧ (∀ id', id' ≠ id →
       get_itinerary (save_image id k img db) id' = get_itinerary db id')
  ∧ (db !! id = None → save_image id k img db = db).
Proof.
  split; [|split].
  - intros r Hr. destruct (db !! id) as [doc|] eqn:Hdoc;
      [|unfold get_itinerary in Hr; by rewrite Hdoc in Hr].
    rewrite (get_itinerary_lookup db id doc Hdoc) in Hr.
    injection Hr as <-.
    rewrite (get_itinerary_lookup _ id (set_image k img doc))
      by (unfold save_image; by rewrite lookup_alter_eq, Hdoc).
    eexists. split; [done|]. simpl.
    split; [apply lookup_insert_eq|].
    split; [intros k' Hk'; by apply lookup_insert_ne|done].
  - intros id' Hne. unfold get_itinerary, save_image.
    by rewrite lookup_alter_ne.
  - intros Hnone. unfold save_image. apply map_eq. intros id'.
    destruct (decide (id' = id)) as [->|Hne].
    + by rewrite lookup_alter_eq, Hnone.
    + by rewrite lookup_alter_ne.
Qed.

Lemma payment_confirmed_cond (retrieve : string → option CheckoutSession)
    (sessionId itineraryId : string) :
  Spec.payment_confirmed retrieve sessionId itineraryId →
  ∃ session, retrieve sessionId = Some session
    ∧ bool_decide (payment_status session = "paid")
      && bool_decide (client_reference_id session = Some itineraryId) = true.
Proof.
  intros (session & Hret & Hpaid & Href). exists session. split; [done|].
  by rewrite !bool_decide_eq_true_2.
Qed.

(** X4.  Saving an address for a stored itinerary sends the preview mail
    to it and changes nothing the lookup route answers; once a payment for
    that itinerary is confirmed, the unlock mail goes to the saved address
    with the same link. *)
Theorem unlock_mail_to_saved_address (origin : option string)
    (retrieve : string → option CheckoutSession) (db : Db)
    (email id sessionId : string) :
  is_Some (db !! id) →
  email ≠ "" →
  Spec.payment_confirmed retrieve sessionId id →
  let out := save_email origin email id db in
  out.1.2 = EmailSaved
  ∧ out.2 = Some {| mail_to := email; mail_kind := PreviewMail;
                    mail_link := shareUrl origin id |}
  ∧ (∀ id', get_itinerary out.1.1 id' = get_itinerary db id')
  ∧ verify_payment_mail origin retrieve out.1.1 sessionId id
    = Some {| mail_to := email; mail_kind := UnlockedMail;
              mail_link := shareUrl origin id |}.
Proof.
  intros [doc Hdoc] Hemail Hpaid. unfold save_email. rewrite Hdoc. simpl.
  split; [done|]. split; [done|]. split.
  - intros id'. destruct (decide (id' = id)) as [->|Hne].
    + rewrite (get_itinerary_lookup _ id (set_email email doc))
        by (by rewrite lookup_alter_eq, Hdoc).
      by rewrite (get_itinerary_lookup db id doc Hdoc).
    + unfold get_itinerary. by rewrite lookup_alter_ne.
  - destruct (payment_confirmed_cond _ _ _ Hpaid) as (session & Hret & Hcond).
    unfold verify_payment_mail, mark_unlocked. rewrite Hret, Hcond.
    rewrite !lookup_alter_eq, Hdoc. simpl.
    by rewrite (proj2 (String.eqb_neq email "") Hemail).
Qed.

Lemma unlock_mail_to_saved_address_witness :
  verify_payment_mail None Sample.stripe1
    (save_email None "ana@example.org" "abc" Sample.db1).1.1 "cs_paid" "abc"
  = Some {| mail_to := "ana@example.org"; mail_kind := UnlockedMail;
            mail_link := "http://localhost:3000/?id=abc" |}.
Proof.
  refine (proj2 (proj2 (proj2
    (unlock_mail_to_saved_address None Sample.stripe1 Sample.db1
       "ana@example.org" "abc" "cs_paid" _ _ _)))).
  - by eexists.
  - discriminate.
  - exists Sample.paid_session. by repeat split.
Defined.

(** X5.  No unlock mail is sent without a confirmed payment, for an
    unknown itinerary, or for an itinerary without a saved address; an
    address is never mailed for another itinerary's payment. *)
Theorem verify_payment_mail_sound (origin : option string)
    (retrieve : string → option CheckoutSession) (db : Db)
    (sessionId id : string) (m : Mail) :
  verify_payment_mail origin retrieve db sessionId id = Some m →
  Spec.payment_confirmed retrieve sessionId id
  ∧ mail_kind m = UnlockedMail
  ∧ mail_link m = shareUrl origin id
  ∧ mail_to m ≠ ""
  ∧ ∃ doc, db !! id = Some doc ∧ doc_email doc = Some (mail_to m).
Proof.
  unfold verify_payment_mail, Spec.payment_confirmed, mark_unlocked.
  destruct (retrieve sessionId) as [session|]; [|done].
  destruct (bool_decide (payment_status session = "paid")
            && bool_decide (client_reference_id session = Some id))
    eqn:Hcond; [|done].
  apply andb_true_iff in Hcond as [Hpaid%bool_decide_eq_true
                                     Href%bool_decide_eq_true].
  rewrite lookup_alter_eq.
  destruct (db !! id) as [doc|]; [|done]. simpl.
  destruct (doc_email doc) as [e|] eqn:He; [|done].
  destruct (String.eqb e "") eqn:Hne; [done|].
  intros [= <-]. simpl. split; [by exists session|].
  split; [done|]. split; [done|].
  split; [by apply String.eqb_neq|]. by exists doc.
Qed.

Lemma verify_payment_mail_sound_witness :
  Spec.payment_confirmed Sample.stripe1 "cs_paid" "abc".
Proof.
  refine (proj1 (verify_payment_mail_sound None Sample.stripe1
            (save_email None "ana@example.org" "abc" Sample.db1).1.1
            "cs_paid" "abc" _ _)).
  vm_compute. reflexivity.
Defined.

(** X6.  A checkout session is created only for a stored itinerary and is
    bound to it: any paid session carrying the reference given at creation
    verifies for that itinerary and unlocks it, and is refused for every
    other itinerary, whose documents stay as they are. *)
Theorem checkout_bound_to_itinerary (origin : option string) (db : Db)
    (id : string) (cp : CheckoutParams)
    (retrieve : string → option CheckoutSession) (sessionId : string)
    (session : CheckoutSession) :
  create_checkout_session origin id db = Some cp →
  retrieve sessionId = Some session →
  payment_status session = "paid" →
  client_reference_id session = Some (cp_client_reference_id cp) →
  (∃ doc, db !! id = Some doc
          ∧ (verify_payment retrieve db sessionId id).1 !! id
            = Some (set_unlocked true doc))
  ∧ (verify_payment retrieve db sessionId id).2 = VerifyOk
  ∧ (∀ id', id' ≠ id →
       verify_payment retrieve db sessionId id' = (db, VerifyInvalid)).
Proof.
  unfold create_checkout_session.
  destruct (db !! id) as [doc|] eqn:Hdoc; [|done].
  intros [= <-] Hret Hpaid Href. simpl in Href.
  unfold verify_payment. rewrite Hret, Hpaid, Href. simpl.
  rewrite !bool_decide_eq_true_2 by done. simpl.
  split; [|split; [done|]].
  - exists doc. split; [done|]. unfold mark_unlocked.
    by rewrite lookup_alter_eq, Hdoc.
  - intros id' Hne. rewrite (bool_decide_eq_false_2 (Some id = Some id')); [done|].
    by intros [= ->].
Qed.

Lemma checkout_bound_to_itinerary_witness :
  (verify_payment Sample.stripe1 Sample.db1 "cs_paid" "abc").2 = VerifyOk.
Proof.
  refine (proj1 (proj2
    (checkout_bound_to_itinerary None Sample.db1 "abc" _ Sample.stripe1
       "cs_paid" Sample.paid_session eq_refl eq_refl eq_refl eq_refl))).
Defined.

(** X7.  Verifying the same session again changes nothing more: the
    second call answers as the first and leaves the collection as the
    first left it. *)
Theorem verify_payment_idempotent
    (retrieve : string → option CheckoutSession) (db : Db)
    (sessionId id : string) :
  let once := verify_payment retrieve db sessionId id in
  verify_payment retrieve once.1 sessionId id = once.
Proof.
  unfold verify_payment.
  destruct (retrieve sessionId) as [session|]; [|done].
  destruct (bool_decide (payment_status session = "paid")
            && bool_decide (client_reference_id session = Some id)); [|done].
  simpl. f_equal. unfold mark_unlocked. apply map_eq. intros id'.
  destruct (decide (id' = id)) as [->|Hne].
  - rewrite !lookup_alter_eq. by destruct (db !! id).
  - by rewrite !lookup_alter_ne.
Qed.

Lemma generate_then_get_witness :
  get_itinerary (generate_trip (Some Sample.lisbon) "new" Sample.db1).1 "new"
  = Some (generate_trip_response "new" Sample.lisbon).
Proof.
  destruct (generate_then_get Sample.lisbon "new" Sample.db1 eq_refl)
    as (Hresp & Hget & _).
  rewrite Hget. exact Hresp.
Defined.

(** ** Opening a shared link *)

Lemma onMount_verify (params : EntryParams) (id sessionId : string)
    (s : AppState) :
  param_id params = Some id → id ≠ "" →
  param_success params = Some "true" →
  param_session_id params = Some sessionId → sessionId ≠ "" →
  onMount params s
  = (setItineraryId (Some id) (setStep VERIFYING_PAYMENT s),
     Some (VerifyRequest id sessionId)).
Proof.
  intros Hid Hne Hsuccess Hsession Hne'. unfold onMount.
  rewrite Hid, Hsuccess, Hsession. simpl.
  rewrite (proj2 (String.eqb_neq id "") Hne).
  by rewrite (proj2 (String.eqb_neq sessionId "") Hne').
Qed.

Lemma onMount_load (params : EntryParams) (id : string) (s : AppState) :
  param_id params = Some id → id ≠ "" →
  param_success params ≠ Some "true"
  ∨ truthy (param_session_id params) = false →
  onMount params s = (setStep LOADING s, Some (LoadRequest id)).
Proof.
  intros Hid Hne Hplain. unfold onMount. rewrite Hid. simpl.
  rewrite (proj2 (String.eqb_neq id "") Hne). simpl.
  destruct Hplain as [Hs| ->].
  - by rewrite bool_decide_eq_false_2.
  - by rewrite andb_false_r.
Qed.


(** X8.  Coming back from a confirmed payment (locator, success marker and
    session reference in the link) for a stored itinerary unlocks it on the
    server and ends on the itinerary screen with all its days shown, no
    day counted as locked, no unlock card, and the stored images as
    cache. *)
Theorem paid_return_shows_all_days (params : EntryParams)
    (retrieve : string → option CheckoutSession) (db : Db) (s : AppState)
    (id sessionId : string) (doc : Doc) (p : Itinerary) :
  param_id params = Some id → id ≠ "" →
  param_success params = Some "true" →
  param_session_id params = Some sessionId → sessionId ≠ "" →
  Spec.payment_confirmed retrieve sessionId id →
  db !! id = Some doc → doc_plan doc = PlanDays p →
  let out := openLink params retrieve db s in
  out.1 !! id = Some (set_unlocked true doc)
  ∧ (∀ id', id' ≠ id → out.1 !! id' = db !! id')
  ∧ step out.2 = ITINERARY
  ∧ isUnlocked out.2 = true
  ∧ itinerary out.2 = Some p
  ∧ dayImages out.2 = doc_images doc
  ∧ itineraryView out.2
    = Some {| displayDays := days p; lockedDaysCount := 0;
              unlockShown := false |}.
Proof.
  intros Hid Hne Hsuccess Hsession Hne' Hpaid Hdoc Hplan.
  unfold openLink. rewrite (onMount_verify params id sessionId) by done.
  destruct (payment_confirmed_cond _ _ _ Hpaid) as (session & Hret & Hcond).
  unfold verify_payment. rewrite Hret, Hcond. simpl.
  assert (mark_unlocked id db !! id = Some (set_unlocked true doc)) as Hdoc'
    by (unfold mark_unlocked; by rewrite lookup_alter_eq, Hdoc).
  rewrite (get_itinerary_lookup _ _ _ Hdoc'). simpl.
  unfold resumeVerified, of_resource. simpl. rewrite Hplan. simpl.
  split; [done|]. split.
  { intros id' Hid'. unfold mark_unlocked. by rewrite lookup_alter_ne. }
  repeat split; try done.
  unfold itineraryView. simpl. by rewrite Z.sub_diag.
Qed.

Lemma paid_return_shows_all_days_witness :
  length (days Sample.lisbon) = 5%nat
  ∧ itineraryView
      (openLink
         {| param_id := Some "abc"; param_success := Some "true";
            param_session_id := Some "cs_paid" |}
         Sample.stripe1 Sample.db1 initialState).2
    = Some {| displayDays := days Sample.lisbon; lockedDaysCount := 0;
              unlockShown := false |}.
Proof.
  split; [reflexivity|].
  refine (proj2 (proj2 (proj2 (proj2 (proj2 (proj2
    (paid_return_shows_all_days
       {| param_id := Some "abc"; param_success := Some "true";
          param_session_id := Some "cs_paid" |}
       Sample.stripe1 Sample.db1 initialState "abc" "cs_paid"
       Sample.lisbon_doc Sample.lisbon
       eq_refl _ eq_refl eq_refl _ _ eq_refl eq_refl))))))).
  - discriminate.
  - discriminate.
  - exists Sample.paid_session. by repeat split.
Defined.

(** X9.  Coming back with a success marker whose payment is not confirmed
    (unpaid, another itinerary's session, unknown session) unlocks nothing:
    the collection is unchanged, nothing is loaded, and the wizard is back
    at [START]. *)
Theorem unpaid_return_starts_over (params : EntryParams)
    (retrieve : string → option CheckoutSession) (db : Db) (s : AppState)
    (id sessionId : string) :
  param_id params = Some id → id ≠ "" →
  param_success params = Some "true" →
  param_session_id params = Some sessionId → sessionId ≠ "" →
  ¬ Spec.payment_confirmed retrieve sessionId id →
  let out := openLink params retrieve db s in
  out.1 = db
  ∧ step out.2 = START
  ∧ itinerary out.2 = itinerary s
  ∧ isUnlocked out.2 = isUnlocked s
  ∧ dayImages out.2 = dayImages s.
Proof.
  intros Hid Hne Hsuccess Hsession Hne' Hno.
  unfold openLink. rewrite (onMount_verify params id sessionId) by done.
  unfold verify_payment.
  destruct (retrieve sessionId) as [session|] eqn:Hret; [|done].
  destruct (bool_decide (payment_status session = "paid")
            && bool_decide (client_reference_id session = Some id))
    eqn:Hcond; [|done].
  destruct Hno. exists session.
  apply andb_true_iff in Hcond as [Hpaid%bool_decide_eq_true
                                     Href%bool_decide_eq_true].
  done.
Qed.

Lemma unpaid_return_starts_over_witness :
  step (openLink
          {| param_id := Some "abc"; param_success := Some "true";
             param_session_id := Some "cs_open" |}
          Sample.stripe1 Sample.db1 initialState).2 = START.
Proof.
  refine (proj1 (proj2
    (unpaid_return_starts_over
       {| param_id := Some "abc"; param_success := Some "true";
          param_session_id := Some "cs_open" |}
       Sample.stripe1 Sample.db1 initialState "abc" "cs_open"
       eq_refl _ eq_refl eq_refl _ _))).
  - discriminate.
  - discriminate.
  - intros (session & [= <-] & Hpaid & _). discriminate Hpaid.
Defined.



(** X11.  A link with only a locator resumes a stored itinerary on the
    itinerary screen without touching the server or the preference draft:
    an unlocked itinerary is shown in full with nothing locked, a locked
    one with its first two days, the remaining days counted as locked and
    the unlock card shown when there are more than two. *)
Theorem shared_link_resumes (params : EntryParams)
    (retrieve : string → option CheckoutSession) (db : Db) (s : AppState)
    (id : string) (doc : Doc) (p : Itinerary) :
  param_id params = Some id → id ≠ "" →
  Spec.plain_link params →
  db !! id = Some doc → doc_plan doc = PlanDays p →
  let out := openLink params retrieve db s in
  let n := Z.of_nat (length (days p)) in
  out.1 = db
  ∧ step out.2 = ITINERARY
  ∧ prefs out.2 = prefs s
  ∧ isUnlocked out.2 = doc_unlocked doc
  ∧ dayImages out.2 = doc_images doc
  ∧ itineraryView out.2
    = Some {| displayDays :=
                if doc_unlocked doc then days p else take 2 (days p);
              lockedDaysCount :=
                if doc_unlocked doc then 0 else Z.max 0 (n - 2);
              unlockShown :=
                negb (doc_unlocked doc) && bool_decide (2 < n) |}.
Proof.
  intros Hid Hne Hplain Hdoc Hplan.
  unfold openLink. rewrite (onMount_load params id) by done.
  rewrite (get_itinerary_lookup db id doc Hdoc). simpl.
  unfold resumeLoaded, of_resource. simpl. rewrite Hplan.
  destruct (doc_unlocked doc); simpl.
  - repeat split; try done. unfold itineraryView. simpl.
    by rewrite Z.sub_diag.
  - repeat split; try done. unfold itineraryView. simpl.
    rewrite take_take, Nat.min_id. do 2 f_equal.
    + rewrite length_take. lia.
    + apply bool_decide_ext. rewrite length_take. lia.
Qed.

Lemma shared_link_resumes_witness :
  itineraryView
    (openLink {| param_id := Some "abc"; param_success := None;
                 param_session_id := None |}
       Sample.stripe1 Sample.db1 initialState).2
  = Some {| displayDays := [Sample.day1; Sample.day2];
            lockedDaysCount := 3; unlockShown := true |}.
Proof.
  refine (proj2 (proj2 (proj2 (proj2 (proj2
    (shared_link_resumes
       {| param_id := Some "abc"; param_success := None;
          param_session_id := None |}
       Sample.stripe1 Sample.db1 initialState "abc" Sample.lisbon_doc
       Sample.lisbon eq_refl _ _ eq_refl eq_refl)))))).
  - discriminate.
  - by left.
Defined.

(** ** The first steps of the wizard *)

Lemma set_destination_same (p : UserPreferences) :
  set_destination (destination p) p = p.
Proof. by destruct p. Qed.

Lemma set_fixedPlans_same (p : UserPreferences) :
  set_fixedPlans (fixedPlans p) p = p.
Proof. by destruct p. Qed.

Lemma set_interests_same (p : UserPreferences) :
  set_interests (interests p) p = p.
Proof. by destruct p. Qed.

Lemma filter_all {A} (P : A → Prop) `{∀ x, Decision (P x)} (l : list A) :
  Forall P l → filter P l = l.
Proof.
  induction 1 as [|x l Hx Hl IH]; [done|].
  by rewrite filter_cons_True, IH.
Qed.

(** X12.  Leaving the start step.  No validation is requested while the
    destination or one of the two dates is empty.  When the validation
    settles, the step becomes [PREFERENCES] exactly when it threw or
    answered valid; otherwise the state is kept and an alert is raised.
    At most the destination of the draft changes, to the formatted name
    when the answer carries one.  When the validation request itself
    fails, the wizard proceeds with the destination as typed. *)
Theorem start_to_preferences (s : AppState) (v : Validation) :
  step s = START →
  let out := destinationValidated v s in
  (handleStartSubmit s = None
   ↔ destination (prefs s) = "" ∨ startDate (prefs s) = ""
     ∨ endDate (prefs s) = "")
  ∧ (step out.1 = PREFERENCES
     ↔ v = ValidationThrown
       ∨ ∃ r, v = ValidationResolved (Some r) ∧ isValid r = true)
  ∧ (step out.1 = PREFERENCES ∨ (out.1 = s ∧ is_Some out.2))
  ∧ prefs out.1 = set_destination (destination (prefs out.1)) (prefs s)
  ∧ (∀ r name, v = ValidationResolved (Some r) → isValid r = true →
               formattedName r = Some name → name ≠ "" →
               destination (prefs out.1) = name)
  ∧ destinationValidated
      (ValidationResolved
         (Some (validateDestination (destination (prefs s)) None))) s
    = (setStep PREFERENCES s, None).
Proof.
  intros Hstep out. split; [|split; [|split; [|split; [|split]]]].
  - unfold handleStartSubmit.
    destruct (String.eqb_spec (destination (prefs s)) "") as [->|Hd];
      [by split; [left|]|].
    destruct (String.eqb_spec (startDate (prefs s)) "") as [->|Hs];
      [by split; [right; left|]|].
    destruct (String.eqb_spec (endDate (prefs s)) "") as [->|He];
      [by split; [right; right|]|].
    simpl. split; [done|]. by intros [?|[?|?]].
  - subst out. destruct v as [[r|]|]; simpl.
    + destruct (isValid r) eqn:Hvalid; simpl.
      * split; [|done]. intros _. right. by exists r.
      * rewrite Hstep. split; [done|].
        intros [?|(r' & [= <-] & Hr')]; [done|congruence].
    + rewrite Hstep. split; [done|]. by intros [?|(r' & ? & _)].
    + split; [|done]. intros _. by left.
  - subst out. destruct v as [[r|]|]; simpl.
    + destruct (isValid r); simpl; [by left|right; by split; [|eexists]].
    + right. by split; [|eexists].
    + by left.
  - subst out. destruct v as [[r|]|]; simpl;
      try by rewrite set_destination_same.
    destruct (isValid r); simpl; [|by rewrite set_destination_same].
    destruct (truthy (formattedName r)); simpl;
      by rewrite ?set_destination_same.
  - intros r name -> Hvalid Hname Hne. subst out. simpl.
    rewrite Hvalid, Hname. simpl.
    by rewrite (proj2 (String.eqb_neq name "") Hne).
  - simpl. destruct (String.eqb (destination (prefs s)) ""); simpl; [done|].
    by rewrite set_destination_same; destruct s.
Qed.

Lemma start_to_preferences_witness :
  destination
    (prefs (destinationValidated
              (ValidationResolved
                 (Some {| isValid := true;
                          formattedName := Some "Lisbon, Portugal" |}))
              initialState).1)
  = "Lisbon, Portugal".
Proof.
  refine (proj1 (proj2 (proj2 (proj2 (proj2
    (start_to_preferences initialState
       (ValidationResolved
          (Some {| isValid := true;
                   formattedName := Some "Lisbon, Portugal" |}))
       eq_refl))))) _ "Lisbon, Portugal" eq_refl eq_refl eq_refl _).
  discriminate.
Defined.

(** X13.  Choosing a trip type empties the demographics, so that
    submitting the preferences right afterwards is blocked for every type,
    whatever had been entered before.  Entering what the type asks for (in
    either order for Solo) lets the submit through, and emptying the age
    again blocks it. *)
Theorem trip_type_choice_resets_demographics (t : TripType) (s : AppState) :
  let chosen := selectTripType t s in
  (∃ msg, handlePreferencesSubmit chosen = (chosen, Some msg))
  ∧ (∀ g v, t = Solo → v ≠ "" →
       (∀ s', s' = enterAge v (chooseGender g chosen)
              ∨ s' = chooseGender g (enterAge v chosen) →
              handlePreferencesSubmit s' = (setStep SPECIFICS s', None))
       ∧ (∃ msg, handlePreferencesSubmit (enterAge v chosen)
                 = (enterAge v chosen, Some msg)))
  ∧ (∀ v, t = Couple ∨ t = Friends → v ≠ "" →
       handlePreferencesSubmit (enterAge v chosen)
       = (setStep SPECIFICS (enterAge v chosen), None)
       ∧ ∃ msg, handlePreferencesSubmit (enterAge "" (enterAge v chosen))
                = (enterAge "" (enterAge v chosen), Some msg))
  ∧ (∀ range, t = Family → range ∈ kidsAgeRanges →
       handlePreferencesSubmit (chooseKidsAgeRange range chosen)
       = (setStep SPECIFICS (chooseKidsAgeRange range chosen), None)).
Proof.
  intros chosen. subst chosen. split; [|split; [|split]].
  - unfold handlePreferencesSubmit, selectTripType. destruct t; simpl;
      by eexists.
  - intros g v -> Hv. split.
    + intros s' [-> | ->]; unfold handlePreferencesSubmit; simpl;
        by rewrite (proj2 (String.eqb_neq v "") Hv).
    + unfold handlePreferencesSubmit. simpl. by eexists.
  - intros v [-> | ->] Hv; (split; [|by eexists]);
      unfold handlePreferencesSubmit; simpl;
      by rewrite (proj2 (String.eqb_neq v "") Hv).
  - intros range -> Hrange. unfold handlePreferencesSubmit. simpl.
    unfold kidsAgeRanges in Hrange.
    repeat (apply elem_of_cons in Hrange as [-> | Hrange]; [done|]).
    by apply elem_of_nil in Hrange.
Qed.

(** X14.  The card of an interest flips the membership of that interest
    and of no other, keeps the list free of duplicates, keeps the order of
    the others and touches nothing else of the draft; switching an absent
    interest on and off again restores the list. *)
Theorem toggleInterest_flips (item : string) (s : AppState) :
  let l := interests (prefs s) in
  let l' := interests (prefs (toggleInterest item s)) in
  (item ∈ l' ↔ item ∉ l)
  ∧ (∀ i, i ≠ item → (i ∈ l' ↔ i ∈ l))
  ∧ (NoDup l → NoDup l')
  ∧ filter (λ i, i ≠ item) l' = filter (λ i, i ≠ item) l
  ∧ prefs (toggleInterest item s) = set_interests l' (prefs s)
  ∧ (item ∉ l → toggleInterest item (toggleInterest item s) = s).
Proof.
  intros l l'. subst l l'. unfold toggleInterest. simpl.
  destruct (decide (item ∈ interests (prefs s))) as [Hin|Hout].
  - rewrite bool_decide_eq_true_2 by done.
    split; [|split; [|split; [|split; [|split]]]]; try done.
    + rewrite list_elem_of_filter. split; [by intros [? _]|done].
    + intros i Hi. rewrite list_elem_of_filter. split; [by intros [_ ?]|done].
    + apply NoDup_filter.
    + by rewrite list_filter_filter, (list_filter_iff _ (λ i, i ≠ item))
        by (intros i; split; [by intros [? _]|done]).
  - rewrite bool_decide_eq_false_2 by done.
    split; [|split; [|split; [|split; [|split]]]]; try done.
    + rewrite elem_of_app, list_elem_of_singleton. split; [done|by right].
    + intros i Hi. rewrite elem_of_app, list_elem_of_singleton.
      split; [by intros [?|?]|by left].
    + intros Hnd. apply NoDup_app. split; [done|].
      split; [|apply NoDup_singleton].
      intros i Hi ->%list_elem_of_singleton. done.
    + rewrite filter_app, filter_cons_False, filter_nil by (by intros ?).
      by rewrite app_nil_r.
    + intros _. simpl.
      rewrite bool_decide_eq_true_2
        by (apply elem_of_app; right; apply list_elem_of_here).
      rewrite filter_app, filter_cons_False, filter_nil, app_nil_r
        by (by intros ?).
      rewrite filter_all; [by destruct s as [? []]|].
      apply Forall_forall. intros i Hi ->. done.
Qed.

(** X15.  A fixed plan added with a date and a description is appended
    after the existing plans and clears the entry fields; removing it
    again by its id, when no other plan bears that id, restores the draft.
    An incomplete entry adds nothing. *)
Theorem fixed_plan_add_remove (newId : string) (tempPlan : string * string)
    (s : AppState) :
  tempPlan.1 ≠ "" → tempPlan.2 ≠ "" →
  (∀ p, p ∈ fixedPlans (prefs s) → fp_id p ≠ newId) →
  let out := addFixedPlan newId tempPlan s in
  fixedPlans (prefs out.1)
  = (fixedPlans (prefs s)
       ++ [{| fp_id := newId; fp_date := tempPlan.1;
              fp_description := tempPlan.2 |}])%list
  ∧ out.2 = ("", "")
  ∧ removeFixedPlan newId out.1 = s
  ∧ addFixedPlan newId ("", tempPlan.2) s = (s, ("", tempPlan.2))
  ∧ addFixedPlan newId (tempPlan.1, "") s = (s, (tempPlan.1, "")).
Proof.
  intros Hdate Hdesc Hfresh. unfold addFixedPlan.
  rewrite (proj2 (String.eqb_neq tempPlan.1 "") Hdate).
  rewrite (proj2 (String.eqb_neq tempPlan.2 "") Hdesc). simpl.
  split; [done|]. split; [done|]. split.
  - unfold removeFixedPlan. simpl.
    rewrite filter_app, filter_cons_False, filter_nil, app_nil_r
      by (simpl; by intros ?).
    rewrite filter_all; [by destruct s as [? []]|].
    apply Forall_forall. intros p Hp. by apply Hfresh.
  - split; [done|]. simpl. by rewrite andb_false_r.
Qed.

Lemma fixed_plan_add_remove_witness :
  removeFixedPlan "k3"
    (addFixedPlan "k3" ("2025-06-02", "Dinner at 8") Sample.visited).1
  = Sample.visited.
Proof.
  refine (proj1 (proj2 (proj2
    (fixed_plan_add_remove "k3" ("2025-06-02", "Dinner at 8") Sample.visited
       _ _ _)))).
  - discriminate.
  - discriminate.
  - intros p Hp. by apply elem_of_nil in Hp.
Defined.

(** ** Dates *)

Import Stdlib.Strings.Ascii.

Lemma split_on_free (sep : Ascii.ascii) (a : string) :
  Spec.free_of sep a → AiService.split_on sep a = [a].
Proof.
  induction a as [|c a IH]; [done|]. intros [Hc Ha]. simpl.
  rewrite (proj2 (Ascii.eqb_neq c sep) Hc). by rewrite IH.
Qed.

Lemma split_on_app (sep : Ascii.ascii) (a b : string) :
  Spec.free_of sep a →
  AiService.split_on sep (a +:+ String sep b) = a :: AiService.split_on sep b.
Proof.
  induction a as [|c a IH]; simpl.
  - intros _. by rewrite Ascii.eqb_refl.
  - intros [Hc Ha]. rewrite (proj2 (Ascii.eqb_neq c sep) Hc). by rewrite IH.
Qed.

(** X16.  An ISO date [YYYY-MM-DD] is shown, and sent to the generation
    service, as [DD/MM/YYYY]: the three parts between the dashes are
    swapped end for end, whatever they hold.  The empty date stays empty,
    and a text without dashes is taken as a year with the other two parts
    printed as undefined. *)
Theorem formatDate_iso (y m d : string) :
  Spec.free_of "-"%char y → Spec.free_of "-"%char m →
  Spec.free_of "-"%char d →
  formatDate (y +:+ "-" +:+ m +:+ "-" +:+ d) = d +:+ "/" +:+ m +:+ "/" +:+ y
  ∧ AiService.formatDateForPrompt (y +:+ "-" +:+ m +:+ "-" +:+ d)
    = d +:+ "/" +:+ m +:+ "/" +:+ y
  ∧ formatDate "" = ""
  ∧ (y ≠ "" → formatDate y = "undefined/undefined/" +:+ y)
  ∧ AiService.formatDateForPrompt "" = ""
  ∧ (y ≠ "" →
     AiService.formatDateForPrompt y = "undefined/undefined/" +:+ y).
Proof.
  intros Hy Hm Hd.
  assert (AiService.split_on "-"%char (y +:+ "-" +:+ m +:+ "-" +:+ d)
          = [y; m; d]) as Hsplit.
  { change (y +:+ "-" +:+ m +:+ "-" +:+ d)
      with (y +:+ String "-"%char (m +:+ String "-"%char d)).
    by rewrite !split_on_app, split_on_free. }
  assert (String.eqb (y +:+ "-" +:+ m +:+ "-" +:+ d) "" = false) as Hne
    by (by destruct y).
  unfold formatDate, AiService.formatDateForPrompt.
  rewrite Hne, Hsplit. simpl. split; [done|]. split; [done|].
  split; [done|].
  assert (y ≠ "" →
          (if String.eqb y "" then ""
           else AiService.part (AiService.split_on "-"%char y) 2 +:+ "/"
                  +:+ AiService.part (AiService.split_on "-"%char y) 1
                  +:+ "/" +:+ AiService.part (AiService.split_on "-"%char y) 0)
          = "undefined/undefined/" +:+ y) as Hyear.
  { intros Hy'.
    by rewrite (proj2 (String.eqb_neq y "") Hy'), split_on_free by done. }
  split; [exact Hyear|]. split; [done|exact Hyear].
Qed.

Lemma formatDate_iso_witness : formatDate "2025-06-01" = "01/06/2025".
Proof.
  refine (proj1 (formatDate_iso "2025" "06" "01" _ _ _));
    simpl; repeat split; discriminate.
Defined.

(** ** More on the questions screen *)

Lemma answer_all_app (ds1 ds2 : list Direction) (s : AppState) :
  answer_all (ds1 ++ ds2)%list s
  = let '(s1, log1, req1) := answer_all ds1 s in
    let '(s2, log2, req2) := answer_all ds2 s1 in
    (s2, (log1 ++ log2)%list, from_option Some req2 req1).
Proof.
  revert s. induction ds1 as [|d ds1 IH]; intros s; simpl.
  - by destruct (answer_all ds2 s) as [[s2 log2] req2].
  - destruct (answer_one d s) as [[s1 log1] req1]. rewrite IH.
    destruct (answer_all ds1 s1) as [[s2 log2] req2].
    destruct (answer_all ds2 s2) as [[s3 log3] req3].
    rewrite (assoc_L (++)). by destruct req1, req2.
Qed.

Lemma answers_of_keys (qs : list SmartQuestion) (ds : list Direction) :
  (length ds ≤ length qs)%nat →
  (Spec.answers_of qs ds).*1 = q_id <$> take (length ds) qs.
Proof.
  intros Hlen. unfold Spec.answers_of, zip.
  rewrite <- (zip_with_take_l pair (q_id <$> qs) (direction_answer <$> ds)).
  rewrite length_fmap, fmap_take.
  apply fst_zip. rewrite length_take, !length_fmap. lia.
Qed.

(** X17.  The itinerary request sent when the last question is answered
    carries the preferences of the render the last answer was given in:
    all earlier answers, but not the last one, although the draft holds
    it by then.  For a last question whose id is new, the request has no
    entry for it. *)
Theorem generation_request_misses_last_answer (s : AppState)
    (ds : list Direction) (d : Direction) (q : SmartQuestion) :
  step s = QUESTIONS →
  currentQuestionIndex s = 0%nat →
  isAnimatingOut s = None →
  S (length ds) = length (smartQuestions s) →
  smartQuestions s !! length ds = Some q →
  let qs := smartQuestions s in
  let out := answer_all (ds ++ [d])%list s in
  ∃ p, out.2 = Some p
       ∧ p = prefs (answer_all ds s).1.1
       ∧ followUpAnswers p
         = Spec.write_all (Spec.answers_of qs ds) (followUpAnswers (prefs s))
       ∧ followUpAnswers (prefs out.1.1)
         = <[q_id q := direction_answer d]> (followUpAnswers p)
       ∧ (q_id q ∉ q_id <$> take (length ds) qs →
          followUpAnswers (prefs s) !! q_id q = None →
          followUpAnswers p !! q_id q = None
          ∧ followUpAnswers (prefs out.1.1) !! q_id q
            = Some (direction_answer d)).
Proof.
  intros Hstep Hidx Hanim Hlen Hq qs out. subst qs out.
  destruct (answer_all_run ds s Hanim Hstep) as
    (s1 & req1 & Hall & Hans & Hqs & Hmid & _); [rewrite Hidx; simpl; lia|].
  rewrite Hidx in Hall, Hans, Hmid. simpl in Hall, Hans, Hmid.
  rewrite drop_0 in Hall, Hans.
  destruct Hmid as (Hstep1 & Hanim1 & -> & Hidx1); [left; lia|].
  rewrite answer_all_app, Hall. simpl.
  destruct (answer_one_step d s1 q Hanim1) as
    (s2 & Hone & Hans2 & _); [by rewrite Hqs, Hidx1|].
  rewrite Hone, Hqs, Hidx1.
  rewrite bool_decide_eq_true_2 by lia. simpl.
  exists (prefs s1). split; [done|]. split; [done|]. split; [done|].
  split; [done|]. intros Hnew Hfresh. rewrite Hans2, Hans. split.
  - rewrite write_all_absent; [done|].
    rewrite answers_of_keys; [done|lia].
  - apply lookup_insert_eq.
Qed.

Lemma generation_request_misses_last_answer_witness :
  ∃ p, (answer_all [right; left] Sample.asking).2 = Some p
       ∧ followUpAnswers p !! "surf_lesson" = None
       ∧ followUpAnswers (prefs (answer_all [right; left] Sample.asking).1.1)
           !! "surf_lesson" = Some false.
Proof.
  destruct (generation_request_misses_last_answer Sample.asking [right] left
              Sample.q_surf eq_refl eq_refl eq_refl eq_refl eq_refl)
    as (p & Hreq & _ & _ & _ & Hlast).
  exists p. split; [exact Hreq|]. apply Hlast.
  - apply (bool_decide_unpack _). vm_compute. exact I.
  - reflexivity.
Defined.

(** X18.  While the card of a committed answer animates out, every input
    is ignored: a second button press, a press, a move, a release or a
    whole drag leave the state as it is and commit nothing, so one answer
    at most is written per animation. *)
Theorem swipe_lock_ignores_input (d d' : Direction) (s : AppState)
    (q : SmartQuestion) (x y : Z) (moves : list (Z * Z)) :
  isAnimatingOut s = None →
  smartQuestions s !! currentQuestionIndex s = Some q →
  let locked := (handleSwipeComplete d s).1 in
  followUpAnswers (prefs locked)
  = <[q_id q := direction_answer d]> (followUpAnswers (prefs s))
  ∧ handleSwipeComplete d' locked = (locked, None)
  ∧ onPointerDown x y locked = locked
  ∧ onPointerMove x y locked = locked
  ∧ onPointerUp locked = (locked, None)
  ∧ drag x y moves locked = (locked, None).
Proof.
  intros Hanim Hq locked.
  destruct (handleSwipeComplete_commit d s q Hanim Hq)
    as (s1 & c & Hcommit & _ & _ & _ & Hans & Hlock & _).
  subst locked. rewrite Hcommit. simpl. split; [done|].
  assert (onPointerDown x y s1 = s1) as Hdown
    by (unfold onPointerDown; by rewrite Hlock).
  assert (∀ a b, onPointerMove a b s1 = s1) as Hmove.
  { intros a b. unfold onPointerMove. rewrite Hlock.
    by destruct (dragStart s1) as [[]|]. }
  assert (onPointerUp s1 = (s1, None)) as Hup.
  { unfold onPointerUp. rewrite Hlock. by destruct (dragStart s1). }
  split; [unfold handleSwipeComplete; by rewrite Hlock|].
  split; [done|]. split; [done|]. split; [done|].
  unfold drag. rewrite Hdown.
  assert (foldl (λ acc m, onPointerMove m.1 m.2 acc) s1 moves = s1) as ->;
    [|done].
  induction moves as [|m moves IH]; [done|]. simpl. by rewrite Hmove.
Qed.

Lemma swipe_lock_ignores_input_witness :
  handleSwipeComplete left (handleSwipeComplete right Sample.asking).1
  = ((handleSwipeComplete right Sample.asking).1, None).
Proof.
  refine (proj1 (proj2
    (swipe_lock_ignores_input right left Sample.asking Sample.q_fado 0 0 []
       eq_refl eq_refl))).
Defined.

Lemma moves_keep_start (x0 y0 : Z) (moves : list (Z * Z)) (s : AppState) :
  dragStart s = Some (x0, y0) → isAnimatingOut s = None →
  let s' := foldl (λ acc m, onPointerMove m.1 m.2 acc) s moves in
  dragStart s' = Some (x0, y0) ∧ isAnimatingOut s' = None
  ∧ prefs s' = prefs s ∧ smartQuestions s' = smartQuestions s
  ∧ currentQuestionIndex s' = currentQuestionIndex s
  ∧ dragDelta s'
    = match last moves with
      | Some m => (m.1 - x0, m.2 - y0)
      | None => dragDelta s
      end.
Proof.
  revert s. induction moves as [|m moves IH] using rev_ind;
    intros s Hstart Hanim; [done|].
  destruct (IH s Hstart Hanim) as (Hs & Ha & Hp & Hq & Hi & _).
  cbv zeta. rewrite foldl_snoc, last_snoc.
  set (s1 := foldl _ s moves) in *.
  unfold onPointerMove. rewrite Hs, Ha. simpl.
  by repeat split.
Qed.

(** X19.  A drag on the card of the active question is decided by where
    it ends relative to where it began: the moves in between and the
    vertical travel do not matter.  Ending more than 100 to the right
    commits yes, more than 100 to the left commits no, anything else
    commits nothing and resets the delta; in every case the drag is
    over. *)
Theorem drag_decided_by_net_travel (s : AppState) (q : SmartQuestion)
    (x0 y0 x1 y1 : Z) (moves : list (Z * Z)) :
  isAnimatingOut s = None →
  smartQuestions s !! currentQuestionIndex s = Some q →
  let out := drag x0 y0 (moves ++ [(x1, y1)])%list s in
  (100 < x1 - x0 →
     (∃ c, out.2 = Some c ∧ c_question c = q ∧ c_answer c = true)
     ∧ followUpAnswers (prefs out.1)
       = <[q_id q := true]> (followUpAnswers (prefs s)))
  ∧ (x1 - x0 < -100 →
     (∃ c, out.2 = Some c ∧ c_question c = q ∧ c_answer c = false)
     ∧ followUpAnswers (prefs out.1)
       = <[q_id q := false]> (followUpAnswers (prefs s)))
  ∧ (-100 ≤ x1 - x0 ≤ 100 →
     out.2 = None ∧ prefs out.1 = prefs s ∧ dragDelta out.1 = (0, 0)
     ∧ isAnimatingOut out.1 = None)
  ∧ dragStart out.1 = None.
Proof.
  intros Hanim Hq out. subst out. unfold drag.
  destruct (moves_keep_start x0 y0 (moves ++ [(x1, y1)])%list
              (onPointerDown x0 y0 s))
    as (Hs & Ha & Hp & Hqs & Hi & Hdelta);
    [unfold onPointerDown; by rewrite Hanim..|].
  rewrite last_snoc in Hdelta. simpl in Hdelta.
  set (s1 := foldl _ _ _) in *.
  assert (prefs s1 = prefs s ∧ smartQuestions s1 !! currentQuestionIndex s1
                               = Some q) as [Hp' Hq'].
  { rewrite Hp, Hqs, Hi. unfold onPointerDown. by rewrite Hanim. }
  unfold onPointerUp. rewrite Hs, Ha, Hdelta. simpl. unfold threshold.
  destruct (decide (100 < x1 - x0)) as [Hyes|Hnyes].
  - rewrite bool_decide_eq_true_2 by done.
    destruct (handleSwipeComplete_commit right s1 q Ha Hq')
      as (s2 & c & -> & Hcq & Hca & _ & Hans & _). simpl.
    split; [intros _; rewrite Hans, Hp'; split; [by exists c|done]|].
    split; [lia|]. split; [lia|done].
  - rewrite bool_decide_eq_false_2 by done.
    destruct (decide (x1 - x0 < -100)) as [Hno|Hnno].
    + rewrite bool_decide_eq_true_2 by done.
      destruct (handleSwipeComplete_commit left s1 q Ha Hq')
        as (s2 & c & -> & Hcq & Hca & _ & Hans & _). simpl.
      split; [lia|].
      split; [intros _; rewrite Hans, Hp'; split; [by exists c|done]|].
      split; [lia|done].
    + rewrite bool_decide_eq_false_2 by done. simpl.
      split; [lia|]. split; [lia|]. split; [|done].
      intros _. by repeat split.
Qed.

Lemma drag_decided_by_net_travel_witness :
  ∃ c, (drag 10 10 [(300, 40); (111, 500)] Sample.asking).2 = Some c
       ∧ c_answer c = true.
Proof.
  destruct (proj1 (drag_decided_by_net_travel Sample.asking Sample.q_fado
                     10 10 111 500 [(300, 40)] eq_refl eq_refl))
    as [(c & Hc & _ & Ha) _]; [reflexivity|].
  exists c. split; [exact Hc|exact Ha].
Defined.

(** ** More on regeneration and deletion *)

(** X20.  The exclusion list passed to the alternative-activity service
    holds exactly the names of the activities of the itinerary, of all
    days and all three periods; in particular the name of every activity
    shown, the one being replaced included. *)
Theorem existingNames_all_activities (it : Itinerary) (name : string) :
  name ∈ existingNames (Some it)
  ↔ ∃ d p a, d ∈ days it ∧ a ∈ period_of p d ∧ a_name a = name.
Proof.
  unfold existingNames. rewrite list_elem_of_In, in_flat_map. split.
  - intros (d & Hd%list_elem_of_In & Hname%list_elem_of_In).
    rewrite !elem_of_app, !list_elem_of_fmap in Hname.
    destruct Hname as [(a & -> & Ha)|[(a & -> & Ha)|(a & -> & Ha)]].
    + by exists d, morning, a.
    + by exists d, afternoon, a.
    + by exists d, evening, a.
  - intros (d & p & a & Hd & Ha & <-). exists d.
    split; [by apply list_elem_of_In|]. apply list_elem_of_In.
    rewrite !elem_of_app, !list_elem_of_fmap.
    destruct p; [left|right; left|right; right]; by exists a.
Qed.

Lemma release_key (ids : gset string) (id : string) :
  id ∉ ids → ({[id]} ∪ ids) ∖ {[id]} = ids.
Proof.
  intros Hid. apply set_eq. intros x.
  rewrite elem_of_difference, elem_of_union, elem_of_singleton.
  split; [by intros [[?|?] ?]|]. intros Hx. split; [by right|].
  by intros ->.
Qed.

(** X21.  A regeneration from the click on a card to the settled call, for
    a slot not in flight: the dialog closes, the service is asked for an
    alternative to the activity of the card with the instruction typed,
    and the key is in flight.  When the call settles the in-flight set is
    what it was before and the target is cleared; a new activity is
    written through the slot update, while null or a rejection leave the
    itinerary as it was. *)
Theorem regeneration_round_trip (s : AppState) (dayNum : Z) (period : Period)
    (idx : nat) (activity : Activity) (dayContext : DayPlan)
    (instruction : string) :
  slot_key dayNum period idx ∉ regeneratingIds s →
  let opened := openRegenerateModal dayNum period idx activity dayContext s in
  let out := confirmRegeneration instruction opened in
  regenerateModalShown opened = true
  ∧ regenerateModalShown out.1 = false
  ∧ slot_key dayNum period idx ∈ regeneratingIds out.1
  ∧ itinerary out.1 = itinerary s
  ∧ ∃ req pd,
      out.2 = Some (req, pd)
      ∧ ar_activity req = activity
      ∧ ar_instruction req = instruction
      ∧ ar_timeOfDay req = period_name period
      ∧ ar_existingNames req = existingNames (itinerary s)
      ∧ ∀ o,
          let settled := regenerationDone pd o out.1 in
          regeneratingIds settled = regeneratingIds s
          ∧ regenTarget settled = None
          ∧ itinerary settled
            = match o with
              | Resolved (Some newActivity) =>
                  replaceActivity dayNum period idx newActivity (itinerary s)
              | _ => itinerary s
              end.
Proof.
  intros Hfree opened out. subst opened out.
  unfold confirmRegeneration, openRegenerateModal, regenerateModalShown.
  simpl. split; [done|]. split; [done|].
  split; [apply elem_of_union_l, elem_of_singleton; done|].
  split; [done|]. do 2 eexists. split; [done|]. simpl.
  repeat split; try done;
    destruct o as [[a|]|]; simpl; try done; by apply release_key.
Qed.

Lemma regeneration_round_trip_witness :
  slot_key 2 morning 0
  ∈ regeneratingIds
      (confirmRegeneration "something outdoors"
         (openRegenerateModal 2 morning 0 Sample.tram Sample.day2
            Sample.locked_screen)).1.
Proof.
  refine (proj1 (proj2 (proj2
    (regeneration_round_trip Sample.locked_screen 2 morning 0 Sample.tram
       Sample.day2 "something outdoors" _)))).
  apply (bool_decide_unpack _). vm_compute. exact I.
Defined.

(** X22.  A regeneration dialog opened while another call is in flight is
    taken down when that call settles, however it settles: the target is
    cleared, the dialog is no longer rendered, and a confirmation still
    arriving asks nothing of the service and changes nothing. *)
Theorem settled_call_closes_open_dialog (s : AppState) (pd : Pending)
    (o : Outcome) (dayNum : Z) (period : Period) (idx : nat)
    (activity : Activity) (dayContext : DayPlan) (instruction : string) :
  let opened := openRegenerateModal dayNum period idx activity dayContext s in
  let settled := regenerationDone pd o opened in
  regenerateModalShown opened = true
  ∧ regenerateModalShown settled = false
  ∧ confirmRegeneration instruction settled = (settled, None).
Proof.
  unfold regenerationDone, openRegenerateModal, regenerateModalShown,
    confirmRegeneration.
  by destruct o as [[a|]|].
Qed.

(** X23.  Deleting an activity removes exactly the position
    [(dayNumber, period, index)]: the positions before it keep their
    index, those after it move down by one, the list is one shorter; the
    other days, the other periods and fields of the day are untouched.  An
    index beyond the end, or a day number no day has, changes nothing.  The
    in-flight set and the regeneration target are not adjusted. *)
Theorem delete_removes_one_position (dayNum : Z) (period : Period)
    (idx : nat) (s : AppState) (it : Itinerary) :
  itinerary s = Some it →
  let s' := handleDeleteActivity dayNum period idx s in
  regeneratingIds s' = regeneratingIds s
  ∧ regenTarget s' = regenTarget s
  ∧ ∃ it',
      itinerary s' = Some it'
      ∧ planDestination it' = planDestination it
      ∧ length (days it') = length (days it)
      ∧ (∀ k d, days it !! k = Some d →
           ∃ d', days it' !! k = Some d'
             ∧ (dayNumber d ≠ dayNum → d' = d)
             ∧ (dayNumber d = dayNum →
                  let l := period_of period d in
                  let l' := period_of period d' in
                  d' = set_period period l' d
                  ∧ (∀ q, q ≠ period → period_of q d' = period_of q d)
                  ∧ (∀ j, (j < idx)%nat → l' !! j = l !! j)
                  ∧ (∀ j, (idx ≤ j)%nat → l' !! j = l !! S j)
                  ∧ ((idx < length l)%nat → S (length l') = length l)
                  ∧ ((length l ≤ idx)%nat → d' = d)))
      ∧ ((∀ d, d ∈ days it → dayNumber d = dayNum →
               (length (period_of period d) ≤ idx)%nat) → it' = it).
Proof.
  intros Hit s'. subst s'. unfold handleDeleteActivity. rewrite Hit. simpl.
  split; [done|]. split; [done|]. eexists. split; [done|]. simpl.
  split; [done|]. split; [by rewrite length_fmap|]. split.
  - intros k d Hk. rewrite list_lookup_fmap, Hk. simpl.
    eexists. split; [done|]. split.
    + intros Hne. by rewrite bool_decide_eq_true_2.
    + intros Heq. rewrite bool_decide_eq_false_2 by (by intros ?).
      cbv zeta. rewrite !period_of_set_period, decide_True by done.
      split; [done|]. split.
      { intros q Hq. rewrite period_of_set_period. by rewrite decide_False. }
      split; [intros j Hj; by apply list_lookup_delete_lt|].
      split; [intros j Hj; by apply list_lookup_delete_ge|].
      split.
      * intros Hlt. rewrite length_delete; [lia|].
        by apply lookup_lt_is_Some_2.
      * intros Hge. rewrite delete_take_drop, take_ge, drop_ge by lia.
        rewrite app_nil_r. apply set_period_same.
  - intros Hout. destruct it as [dest ds]. unfold set_days. simpl in *.
    f_equal. apply fmap_fixed. intros d Hd.
    destruct (decide (dayNumber d = dayNum)) as [Heq|Hne].
    + rewrite bool_decide_eq_false_2 by (by intros ?).
      rewrite delete_take_drop, take_ge, drop_ge by (specialize (Hout d Hd Heq); lia).
      rewrite app_nil_r. apply set_period_same.
    + by rewrite bool_decide_eq_true_2.
Qed.

Lemma delete_removes_one_position_witness :
  ∃ it', itinerary (handleDeleteActivity 1 evening 0 Sample.locked_screen)
         = Some it'
         ∧ length (days it') = 2%nat.
Proof.
  destruct (delete_removes_one_position 1 evening 0 Sample.locked_screen _
              eq_refl) as (_ & _ & it' & Hit' & _ & Hlen & _).
  exists it'. split; [exact Hit'|]. rewrite Hlen. reflexivity.
Defined.

(** X24.  The race of a deletion with a regeneration in flight.  When an
    activity before the target of a pending regeneration is deleted from
    the same list, the settled call does not replace the activity it was
    asked for: that one has moved down by one and stays, and the new
    activity overwrites its successor, or is dropped when there is none.
    The list is one shorter, never longer. *)
Theorem delete_shifts_regeneration_target (s : AppState) (it : Itinerary)
    (k : nat) (d : DayPlan) (pd : Pending) (j : nat) (newActivity : Activity) :
  itinerary s = Some it →
  days it !! k = Some d →
  dayNumber d = p_dayNum pd →
  (j < p_idx pd)%nat →
  (p_idx pd < length (period_of (p_period pd) d))%nat →
  let l := period_of (p_period pd) d in
  let s' :=
    regenerationDone pd (Resolved (Some newActivity))
      (handleDeleteActivity (p_dayNum pd) (p_period pd) j s) in
  ∃ it' d',
    itinerary s' = Some it' ∧ days it' !! k = Some d'
    ∧ let l' := period_of (p_period pd) d' in
      l' !! (p_idx pd - 1)%nat = l !! p_idx pd
      ∧ S (length l') = length l
      ∧ (∀ i, i ≠ p_idx pd → l' !! i = delete j l !! i)
      ∧ ((S (p_idx pd) < length l)%nat →
           l' !! p_idx pd = Some newActivity
           ∧ newActivity ∈ l')
      ∧ ((S (p_idx pd) = length l)%nat → l' = delete j l).
Proof.
  intros Hit Hk Hday Hj Hidx l s'. subst s'. fold l in Hidx.
  unfold regenerationDone, handleDeleteActivity. rewrite Hit. simpl.
  do 2 eexists. split; [done|]. simpl.
  rewrite !list_lookup_fmap, Hk. simpl. split; [done|].
  rewrite (bool_decide_eq_false_2 (dayNumber d ≠ p_dayNum pd))
    by (by intros ?).
  rewrite dayNumber_set_period.
  rewrite (bool_decide_eq_false_2 (dayNumber d ≠ p_dayNum pd))
    by (by intros ?).
  cbv zeta. rewrite !period_of_set_period, !decide_True by done.
  fold l. clearbody l.
  assert (S (length (delete j l)) = length l) as Hlen.
  { rewrite length_delete; [lia|]. apply lookup_lt_is_Some_2. lia. }
  split; [|split; [|split; [|split]]].
  - rewrite replace_at_other by lia.
    rewrite list_lookup_delete_ge by lia. f_equal. lia.
  - by rewrite replace_at_length.
  - intros i Hi. by apply replace_at_other.
  - intros Hnext.
    assert (replace_at (p_idx pd) newActivity (delete j l) !! p_idx pd
            = Some newActivity) as Hnew by (apply replace_at_target; lia).
    split; [done|]. by eapply list_elem_of_lookup_2.
  - intros Hlast. apply replace_at_dropped. lia.
Qed.

Lemma delete_shifts_regeneration_target_witness :
  ∃ it' d',
    itinerary
      (regenerationDone
         {| p_dayNum := 1; p_period := evening; p_idx := 1;
            p_id := "1-evening-1" |}
         (Resolved (Some Sample.market))
         (handleDeleteActivity 1 evening 0 Sample.locked_screen)) = Some it'
    ∧ days it' !! 0%nat = Some d'
    ∧ dayEvening d' = [Sample.bar].
Proof.
  destruct (delete_shifts_regeneration_target Sample.locked_screen _ 0
              Sample.day1
              {| p_dayNum := 1; p_period := evening; p_idx := 1;
                 p_id := "1-evening-1" |} 0 Sample.market
              eq_refl eq_refl eq_refl ltac:(simpl; lia) ltac:(simpl; lia))
    as (it' & d' & Hit' & Hd' & _ & _ & _ & _ & Hdropped).
  exists it', d'. split; [exact Hit'|]. split; [exact Hd'|].
  exact (Hdropped eq_refl).
Defined.

Lemma set_period_comm (p q : Period) (l k : list Activity) (d : DayPlan) :
  p ≠ q →
  set_period p l (set_period q k d) = set_period q k (set_period p l d).
Proof. by destruct p, q. Qed.

Lemma on_period_apart (n1 n2 : Z) (p1 p2 : Period)
    (F G : list Activity → list Activity) (d : DayPlan) :
  n1 ≠ n2 ∨ p1 ≠ p2 →
  Spec.on_period n1 p1 F (Spec.on_period n2 p2 G d)
  = Spec.on_period n2 p2 G (Spec.on_period n1 p1 F d).
Proof.
  intros Hapart. unfold Spec.on_period.
  destruct (decide (dayNumber d = n1)) as [H1|H1];
    destruct (decide (dayNumber d = n2)) as [H2|H2].
  - destruct Hapart as [Hn|Hp]; [congruence|].
    rewrite (bool_decide_eq_false_2 (dayNumber d ≠ n1)) by (by intros ?).
    rewrite (bool_decide_eq_false_2 (dayNumber d ≠ n2)) by (by intros ?).
    rewrite !dayNumber_set_period.
    rewrite (bool_decide_eq_false_2 (dayNumber d ≠ n1)) by (by intros ?).
    rewrite (bool_decide_eq_false_2 (dayNumber d ≠ n2)) by (by intros ?).
    rewrite !period_of_set_period, !decide_False by done.
    by apply set_period_comm.
  - rewrite (bool_decide_eq_true_2 (dayNumber d ≠ n2)) by done.
    rewrite (bool_decide_eq_false_2 (dayNumber d ≠ n1)) by (by intros ?).
    rewrite dayNumber_set_period.
    by rewrite (bool_decide_eq_true_2 (dayNumber d ≠ n2)).
  - rewrite (bool_decide_eq_true_2 (dayNumber d ≠ n1)) by done.
    rewrite (bool_decide_eq_false_2 (dayNumber d ≠ n2)) by (by intros ?).
    rewrite dayNumber_set_period.
    by rewrite (bool_decide_eq_true_2 (dayNumber d ≠ n1)).
  - rewrite (bool_decide_eq_true_2 (dayNumber d ≠ n1)) by done.
    rewrite (bool_decide_eq_true_2 (dayNumber d ≠ n2)) by done.
    by rewrite (bool_decide_eq_true_2 (dayNumber d ≠ n1)).
Qed.

Lemma on_period_same (n : Z) (p : Period)
    (F G : list Activity → list Activity) (d : DayPlan) :
  (∀ l, F (G l) = G (F l)) →
  Spec.on_period n p F (Spec.on_period n p G d)
  = Spec.on_period n p G (Spec.on_period n p F d).
Proof.
  intros Hcomm. unfold Spec.on_period.
  destruct (decide (dayNumber d = n)) as [H1|H1].
  - rewrite (bool_decide_eq_false_2 (dayNumber d ≠ n)) by (by intros ?).
    rewrite !dayNumber_set_period.
    rewrite (bool_decide_eq_false_2 (dayNumber d ≠ n)) by (by intros ?).
    rewrite !period_of_set_period, !decide_True, !set_period_twice by done.
    by rewrite Hcomm.
  - rewrite (bool_decide_eq_true_2 (dayNumber d ≠ n)) by done.
    by rewrite (bool_decide_eq_true_2 (dayNumber d ≠ n)).
Qed.

Lemma replace_at_comm (i j : nat) (a b : Activity) (l : list Activity) :
  i ≠ j → replace_at i a (replace_at j b l) = replace_at j b (replace_at i a l).
Proof.
  intros Hij. unfold replace_at.
  destruct (l !! i) as [x|] eqn:Hi; destruct (l !! j) as [y|] eqn:Hj;
    rewrite ?list_lookup_insert_ne, ?Hi, ?Hj by done; try done.
  by apply list_insert_insert_ne.
Qed.

Lemma updaters_commute (f g : DayPlan → DayPlan) (it : option Itinerary) :
  (∀ d, f (g d) = g (f d)) →
  (λ p, set_days (f <$> days p) p)
    <$> ((λ p, set_days (g <$> days p) p) <$> it)
  = (λ p, set_days (g <$> days p) p)
      <$> ((λ p, set_days (f <$> days p) p) <$> it).
Proof.
  intros Hcomm. destruct it as [p|]; [|done]. simpl. f_equal.
  unfold set_days. simpl. f_equal.
  rewrite <- !list_fmap_compose. apply list_fmap_ext. intros i d _.
  simpl. apply Hcomm.
Qed.

(** X25.  Writes to different slots do not depend on their order: two
    settled regenerations of different slots give the same itinerary
    either way round, and so do a deletion and a regeneration, or two
    deletions, in different lists. *)
Theorem slot_updates_commute (n1 n2 : Z) (p1 p2 : Period) (i1 i2 : nat)
    (a1 a2 : Activity) (it : option Itinerary) :
  ((n1, p1, i1) ≠ (n2, p2, i2) →
     replaceActivity n1 p1 i1 a1 (replaceActivity n2 p2 i2 a2 it)
     = replaceActivity n2 p2 i2 a2 (replaceActivity n1 p1 i1 a1 it))
  ∧ ((n1, p1) ≠ (n2, p2) →
     deleteActivity n1 p1 i1 (replaceActivity n2 p2 i2 a2 it)
     = replaceActivity n2 p2 i2 a2 (deleteActivity n1 p1 i1 it)
     ∧ deleteActivity n1 p1 i1 (deleteActivity n2 p2 i2 it)
       = deleteActivity n2 p2 i2 (deleteActivity n1 p1 i1 it)).
Proof.
  assert (∀ n p i a o,
            replaceActivity n p i a o
            = (λ q, set_days (Spec.on_period n p (replace_at i a) <$> days q) q)
                <$> o) as Hrep by (by intros n p i a [q|]).
  assert (∀ n p i o,
            deleteActivity n p i o
            = (λ q, set_days (Spec.on_period n p (delete i) <$> days q) q)
                <$> o) as Hdel by (by intros n p i [q|]).
  assert (∀ (n m : Z) (p q : Period), (n, p) ≠ (m, q) → n ≠ m ∨ p ≠ q)
    as Hapart.
  { intros n m p q Hne. destruct (decide (n = m)) as [->|?]; [|by left].
    right. by intros ->. }
  split.
  - intros Hslots. rewrite !Hrep. apply updaters_commute. intros d.
    destruct (decide ((n1, p1) = (n2, p2))) as [[= -> ->]|Hne].
    + apply on_period_same. intros l. apply replace_at_comm. congruence.
    + by apply on_period_apart, Hapart.
  - intros Hne. split.
    + rewrite !Hrep, !Hdel. apply updaters_commute. intros d.
      by apply on_period_apart, Hapart.
    + rewrite !Hdel. apply updaters_commute. intros d.
      by apply on_period_apart, Hapart.
Qed.

(** ** Generation and images *)

(** X26.  A trip generated under a fresh id is stored in full on the
    server and shown locked: the itinerary screen has its first two days,
    counts the others as locked, shows the unlock card when there are more
    than two days, and starts with an empty image cache.  When the service
    produces no plan nothing is stored and the wizard is back at
    [START]. *)
Theorem fresh_trip_is_locked (plan : Itinerary) (id : string) (db : Db)
    (s : AppState) :
  db !! id = None →
  let out := generateTrip (Some plan) id db s in
  let n := Z.of_nat (length (days plan)) in
  out.1 !! id = Some (new_doc id plan)
  ∧ step out.2 = ITINERARY
  ∧ isUnlocked out.2 = false
  ∧ itineraryId out.2 = Some id
  ∧ dayImages out.2 = ∅
  ∧ prefs out.2 = prefs s
  ∧ itineraryView out.2
    = Some {| displayDays := take 2 (days plan);
              lockedDaysCount := Z.max 0 (n - 2);
              unlockShown := bool_decide (2 < n) |}
  ∧ generateTrip None id db s = (db, setStep START s).
Proof.
  intros Hfresh. unfold generateTrip, generate_trip. rewrite Hfresh. simpl.
  split; [apply lookup_insert_eq|].
  repeat split; try done.
  unfold itineraryView. simpl. rewrite take_take, Nat.min_id.
  do 2 f_equal.
  - rewrite length_take. lia.
  - apply bool_decide_ext. rewrite length_take. lia.
Qed.

Lemma fresh_trip_is_locked_witness :
  itineraryView (generateTrip (Some Sample.lisbon) "new" Sample.db1
                   initialState).2
  = Some {| displayDays := [Sample.day1; Sample.day2];
            lockedDaysCount := 3; unlockShown := true |}.
Proof.
  destruct (fresh_trip_is_locked Sample.lisbon "new" Sample.db1 initialState
              eq_refl) as (_ & _ & _ & _ & _ & _ & Hview & _).
  exact Hview.
Defined.

Lemma loadImages_task_days (ds : list DayPlan) (existing : gmap Z string)
    (s : AppState) :
  it_dayNumber <$> (loadImages ds existing s).2
  = filter (λ k, truthy (existing !! k) = false) (dayNumber <$> ds).
Proof.
  unfold loadImages. cbn [snd]. induction ds as [|d ds IH]; [done|].
  rewrite fmap_cons.
  destruct (truthy (existing !! dayNumber d)) eqn:Hd.
  - rewrite filter_cons_False by (by rewrite Hd). rewrite <- IH.
    simpl. by rewrite Hd.
  - rewrite filter_cons_True by done. rewrite <- IH.
    simpl. by rewrite Hd.
Qed.

Lemma imagesDone_frame (cs : list (Z * option string)) (s : AppState) :
  step (imagesDone cs s) = step s
  ∧ prefs (imagesDone cs s) = prefs s
  ∧ itinerary (imagesDone cs s) = itinerary s
  ∧ isUnlocked (imagesDone cs s) = isUnlocked s
  ∧ totalDays (imagesDone cs s) = totalDays s
  ∧ regeneratingIds (imagesDone cs s) = regeneratingIds s.
Proof.
  induction cs as [|c cs IH] using rev_ind; [done|].
  rewrite imagesDone_snoc. unfold imageDone.
  destruct (truthy c.2); [|done]. simpl. exact IH.
Qed.

(** X27.  Hydration.  [loadImages] sets the cache to the images already
    known and starts one task for each day lacking one, in the order of the
    days.  When every task delivers an image, in whatever order, every day
    of the list ends with an image, and the images known beforehand are
    the same as before. *)
Theorem hydration_fills_every_day (ds : list DayPlan)
    (existing : gmap Z string) (s : AppState) (imgs : Z → string)
    (cs : list (Z * option string)) :
  (∀ k, imgs k ≠ "") →
  cs ≡ₚ (λ t, (it_dayNumber t, Some (imgs (it_dayNumber t))))
          <$> (loadImages ds existing s).2 →
  let out := loadImages ds existing s in
  let final := imagesDone cs out.1 in
  dayImages out.1 = existing
  ∧ it_dayNumber <$> out.2
    = filter (λ k, truthy (existing !! k) = false) (dayNumber <$> ds)
  ∧ (∀ d, d ∈ ds → truthy (dayImages final !! dayNumber d) = true)
  ∧ (∀ k, truthy (existing !! k) = true →
          dayImages final !! k = existing !! k).
Proof.
  intros Himgs Hperm out final. subst out final.
  split; [done|]. split; [apply loadImages_task_days|].
  pose proof (loadImages_task_days ds existing s) as Hdays.
  set (tasks := (loadImages ds existing s).2) in *.
  assert (∀ k i, (k, i) ∈ cs ↔ i = Some (imgs k) ∧ k ∈ it_dayNumber <$> tasks)
    as Hcs.
  { intros k i. rewrite Hperm, !list_elem_of_fmap. split.
    - intros (t & [= -> ->] & Ht). split; [done|]. by exists t.
    - intros [-> (t & -> & Ht)]. by exists t. }
  split.
  - intros d Hd.
    destruct (imagesDone_lookup cs (loadImages ds existing s).1 (dayNumber d))
      as [(v & _ & Hv & ->)|[Hnone ->]].
    + simpl. by rewrite negb_true_iff, String.eqb_neq.
    + simpl. destruct (truthy (existing !! dayNumber d)) eqn:Hknown; [done|].
      assert (truthy (Some (imgs (dayNumber d))) = false) as Hfalse.
      { apply Hnone, Hcs. split; [done|]. rewrite Hdays.
        apply list_elem_of_filter. split; [done|].
        apply list_elem_of_fmap. by exists d. }
      simpl in Hfalse. rewrite negb_false_iff, String.eqb_eq in Hfalse.
      by destruct (Himgs (dayNumber d)).
  - intros k Hknown.
    destruct (imagesDone_lookup cs (loadImages ds existing s).1 k)
      as [(v & Hin & _ & _)|[_ ->]]; [|done].
    apply Hcs in Hin as [_ Hk]. rewrite Hdays in Hk.
    apply list_elem_of_filter in Hk as [Hk _]. congruence.
Qed.

Lemma hydration_fills_every_day_witness :
  truthy
    (dayImages
       (imagesDone [(2, Some "img"); (1, Some "img")]
          (loadImages [Sample.day1; Sample.day2] ∅ initialState).1) !! 2)
  = true.
Proof.
  refine (proj1 (proj2 (proj2
    (hydration_fills_every_day [Sample.day1; Sample.day2] ∅ initialState
       (λ _, "img") [(2, Some "img"); (1, Some "img")] _ _))) Sample.day2 _).
  - intros _. discriminate.
  - apply (bool_decide_unpack _). vm_compute. exact I.
  - apply list_elem_of_further, list_elem_of_here.
Defined.

(** X28.  Settled image tasks touch the cache only.  The itinerary screen
    (days shown, locked count, unlock card), the draft, the itinerary and
    the in-flight set are as before; no cache entry is lost; every entry
    is an old one or a non-empty image that was delivered for that day;
    and tasks that all fail leave the state as it is. *)
Theorem image_completions_only_touch_cache (cs : list (Z * option string))
    (s : AppState) :
  itineraryView (imagesDone cs s) = itineraryView s
  ∧ prefs (imagesDone cs s) = prefs s
  ∧ itinerary (imagesDone cs s) = itinerary s
  ∧ regeneratingIds (imagesDone cs s) = regeneratingIds s
  ∧ (∀ k, is_Some (dayImages s !! k) →
          is_Some (dayImages (imagesDone cs s) !! k))
  ∧ (∀ k v, dayImages (imagesDone cs s) !! k = Some v →
            dayImages s !! k = Some v ∨ ((k, Some v) ∈ cs ∧ v ≠ ""))
  ∧ ((∀ c, c ∈ cs → truthy c.2 = false) → imagesDone cs s = s).
Proof.
  destruct (imagesDone_frame cs s) as (Hstep & Hprefs & Hit & Hun & Htot & Hids).
  split; [unfold itineraryView; by rewrite Hstep, Hit, Hun, Htot|].
  split; [done|]. split; [done|]. split; [done|]. split; [|split].
  - intros k Hk.
    destruct (imagesDone_lookup cs s k) as [(v & _ & _ & ->)|[_ ->]];
      [by eexists|done].
  - intros k v Hv.
    destruct (imagesDone_lookup cs s k) as [(w & Hin & Hw & Hlook)|[_ Hlook]];
      rewrite Hlook in Hv; [|by left].
    injection Hv as <-. by right.
  - intros Hfail. induction cs as [|c cs IH] using rev_ind; [done|].
    rewrite imagesDone_snoc. unfold imageDone.
    rewrite (Hfail c) by (apply elem_of_app; right; apply list_elem_of_here).
    apply IH; try apply imagesDone_frame.
    intros c' Hc'. apply Hfail, elem_of_app. by left.
Qed.

(** X29.  An image delivered for a day is saved on the server under the
    itinerary, so that a later visit through the shared link finds it in
    the cache from the start and requests no image for that day again. *)
Theorem saved_image_not_requested_again (db : Db) (s s0 : AppState)
    (id : string) (k : Z) (img : string) (doc : Doc) (p : Itinerary) :
  db !! id = Some doc → doc_plan doc = PlanDays p → img ≠ "" →
  let st := imageTaskDone id k (Some img) (db, s) in
  let resumed := resumeLoaded (getItineraryById (get_itinerary st.1 id)) s0 in
  dayImages st.2 !! k = Some img
  ∧ step resumed.1 = ITINERARY
  ∧ dayImages resumed.1 !! k = Some img
  ∧ (∀ t, t ∈ resumed.2 → it_dayNumber t ≠ k).
Proof.
  intros Hdoc Hplan Himg st resumed. subst st resumed.
  unfold imageTaskDone, imageDone. simpl.
  rewrite (proj2 (String.eqb_neq img "") Himg). simpl.
  split; [apply lookup_insert_eq|].
  rewrite (get_itinerary_lookup _ id (set_image k img doc))
    by (unfold save_image; by rewrite lookup_alter_eq, Hdoc).
  unfold getItineraryById.
  match goal with
  | |- context [of_resource <$> Some ?r] =>
      change (of_resource <$> Some r) with (Some (of_resource r));
      set (data := of_resource r)
  end.
  assert (∃ plan, cd_plan data = Some plan
                  ∧ cd_images data = <[k := img]> (doc_images doc))
    as (plan & Hdata & Himages).
  { subst data. unfold of_resource. simpl. rewrite Hplan.
    destruct (doc_unlocked doc); by eexists. }
  unfold resumeLoaded. rewrite Hdata.
  split; [done|]. split.
  { change (cd_images data !! k = Some img).
    rewrite Himages. apply lookup_insert_eq. }
  intros t Ht Hk.
  assert (k ∈ it_dayNumber <$>
                (loadImages (days plan) (cd_images data)
                   (setStep ITINERARY
                      (setTotalDays (cd_totalDays data)
                         (setIsUnlocked (cd_unlocked data)
                            (setItineraryId (Some (cd_id data))
                               (setItinerary (Some plan) s0)))))).2) as Hin
    by (apply list_elem_of_fmap; by exists t).
  rewrite loadImages_task_days in Hin.
  apply list_elem_of_filter in Hin as [Hin _].
  rewrite Himages, lookup_insert_eq in Hin. simpl in Hin.
  by rewrite (proj2 (String.eqb_neq img "") Himg) in Hin.
Qed.

Lemma saved_image_not_requested_again_witness :
  dayImages
    (resumeLoaded
       (getItineraryById
          (get_itinerary
             (imageTaskDone "abc" 1 (Some "img1")
                (Sample.db1, Sample.locked_screen)).1 "abc"))
       initialState).1 !! 1
  = Some "img1".
Proof.
  refine (proj1 (proj2 (proj2
    (saved_image_not_requested_again Sample.db1 Sample.locked_screen
       initialState "abc" 1 "img1" Sample.lisbon_doc Sample.lisbon
       eq_refl eq_refl _)))).
  discriminate.
Defined.

(** ** The questions of the generation service *)

Lemma ceil_div_le (x n : Z) :
  AiService.ceil_div x AiService.msPerDay ≤ n ↔ x ≤ n * AiService.msPerDay.
Proof.
  unfold AiService.ceil_div.
  assert (0 < AiService.msPerDay) as Hpos by done.
  split; intros H.
  - assert (- n ≤ - x / AiService.msPerDay) as Hq by lia.
    destruct (Z.le_gt_cases x (n * AiService.msPerDay)) as [?|Hgt]; [done|].
    assert (- x / AiService.msPerDay < - n); [|lia].
    apply Z.div_lt_upper_bound; lia.
  - assert (- n ≤ - x / AiService.msPerDay); [|lia].
    apply Z.div_le_lower_bound; lia.
Qed.

(** X30.  The questions route answers a prefix of what the model returned,
    of at most ten questions, and of at most five when the trip ends no
    later than four days after it starts; an end before the start counts
    as a one-day trip.  With an invalid date up to ten questions are
    passed on, and a failed or malformed answer gives none. *)
Theorem questions_capped (start finish : option Z)
    (answer : option (list SmartQuestion)) :
  let qs := AiService.checkEventsAndGetQuestions start finish answer in
  (length qs ≤ 10)%nat
  ∧ (∀ res, answer = Some res → qs `prefix_of` res)
  ∧ (answer = None → qs = [])
  ∧ (∀ a b res, start = Some a → finish = Some b → answer = Some res →
       (b - a ≤ 4 * AiService.msPerDay → qs = take 5 res)
       ∧ (4 * AiService.msPerDay < b - a → qs = take 10 res)
       ∧ (b ≤ a → AiService.durationDays start finish = Some 1))
  ∧ (∀ res, start = None ∨ finish = None → answer = Some res →
            qs = take 10 res).
Proof.
  intros qs. subst qs. unfold AiService.checkEventsAndGetQuestions.
  assert (∀ d, (AiService.targetNumQuestions d ≤ 10)%nat) as Hcap.
  { intros [d|]; simpl; [case_bool_decide|]; lia. }
  split; [|split; [|split; [|split]]].
  - destruct answer as [res|]; simpl; [|lia].
    rewrite length_take. specialize (Hcap (AiService.durationDays start finish)).
    lia.
  - intros res ->. apply prefix_take.
  - by intros ->.
  - intros a b res -> -> ->. simpl. split; [|split].
    + intros Hshort. rewrite bool_decide_eq_true_2; [done|].
      assert (AiService.ceil_div (b - a) AiService.msPerDay ≤ 4)
        by (by apply ceil_div_le). lia.
    + intros Hlong. rewrite bool_decide_eq_false_2; [done|].
      assert (¬ AiService.ceil_div (b - a) AiService.msPerDay ≤ 4)
        by (rewrite ceil_div_le; lia). lia.
    + intros Hneg. f_equal.
      assert (AiService.ceil_div (b - a) AiService.msPerDay ≤ 0)
        by (apply ceil_div_le; lia). lia.
  - intros res Hinvalid ->. simpl.
    destruct start as [a|], finish as [b|]; try done.
    by destruct Hinvalid.
Qed.
